(** * Optimistic task updates: TaskItem, the api client and the keyed queue

    A shallow embedding of
      - [frontend/lib/api.ts]              (module [Api]),
      - [frontend/components/TaskItem.tsx] (module [TaskItem]),
      - the two list callbacks of [frontend/app/page.tsx] (module [Page]),
      - one TaskItem on the page, driven by handler invocations and by the
        settlement of its remote calls (module [App]),
      - the keyed serial queue [taskUpdateQueue] of [@/lib/requestQueue]
        (module [RequestQueue]); its file is not among the sources, the
        model follows the written specification,
    followed by the properties of the written specification.

    Conventions.
      - A JS string is a [string]; its characters are code units in the
        range 0..255.
      - [Task.id] is a JS number holding an integer database key: a [Z],
        printed in decimal by a template literal.
      - A promise is described by the way it settles ([Settled]).
      - An [async] handler is split at its single [await]: the synchronous
        prefix is a [Handler] computation that returns the suspended
        invocation ([Suspended]); the code after the [await] is a second
        [Handler] computation that consumes the settlement.
      - A handler is a closure of one render: it reads the props and the
        state cells of that render and writes through the setters. React
        re-renders after every discrete event, so an event runs the
        closures of the state committed by the events before it. *)

From Stdlib Require Import Ascii.
From stdpp Require Import gmap strings list pretty.

Set Warnings "-register-all".

Open Scope string_scope.
Open Scope Z_scope.
Open Scope list_scope.

(* ===================================================================== *)
(** ** JavaScript values *)
(* ===================================================================== *)

Module Js.

(** What a [throw] carries: [new Error(m)], or an error object of the
    runtime (TypeError of [fetch], SyntaxError of [json()], ...). *)
Record Exn := mkExn { exn_name : string; exn_message : string }.

(** How a promise (or a [try] block) ends. *)
Inductive Settled (A : Type) : Type :=
| Fulfilled (a : A)
| Rejected (e : Exn).
Arguments Fulfilled {A} a.
Arguments Rejected {A} e.

(** WhiteSpace and LineTerminator code units below 256:
    TAB, LF, VT, FF, CR, SP and NBSP. *)
Definition isWhiteSpace (c : ascii) : bool :=
  let n := nat_of_ascii c in
  ((n =? 9) || (n =? 10) || (n =? 11) || (n =? 12) || (n =? 13)
   || (n =? 32) || (n =? 160))%nat.

Fixpoint trimStart (s : string) : string :=
  match s with
  | EmptyString => EmptyString
  | String c r => if isWhiteSpace c then trimStart r else s
  end.

Definition trimEnd (s : string) : string :=
  String.rev (trimStart (String.rev s)).

(** [String.prototype.trim] *)
Definition trim (s : string) : string := trimEnd (trimStart s).

(** The numbers of the model: the safe integers
    ([Number.isSafeInteger]), which a double holds exactly and which both
    ToString and [JSON.stringify] print as their decimal digits. Fractions
    and larger numbers are outside the model. *)
Record SafeInteger := mkSafe {
  int_value : Z;
  int_safe : Is_true (Z.abs int_value <=? 9007199254740991)
}.

(** A value produced by [JSON.parse]; an object is the list of its own
    properties. *)
Inductive Json : Type :=
| JNull
| JBool (b : bool)
| JNumber (n : SafeInteger)
| JString (s : string)
| JArray (l : list Json)
| JObject (fields : list (string * Json)).

(** ToBoolean *)
Definition truthy (v : Json) : bool :=
  match v with
  | JNull => false
  | JBool b => b
  | JNumber n => negb (int_value n =? 0)
  | JString s => negb (String.eqb s "")
  | JArray _ | JObject _ => true
  end.

Fixpoint assoc (name : string) (fields : list (string * Json)) : option Json :=
  match fields with
  | [] => None
  | (k, v) :: rest => if String.eqb k name then Some v else assoc name rest
  end.

(** [v.name] for a parsed value [v]:
    [None] is the TypeError of reading a property of [null],
    [Some None] is [undefined], [Some (Some x)] the property's value. *)
Definition getProp (v : Json) (name : string) : option (option Json) :=
  match v with
  | JNull => None
  | JObject fields => Some (assoc name fields)
  | _ => Some None
  end.

Fixpoint join (sep : string) (l : list string) : string :=
  match l with
  | [] => ""
  | [x] => x
  | x :: rest => x +:+ sep +:+ join sep rest
  end.

(** [Array.prototype.join] on strings already converted; the conversion of
    an element may have thrown. *)
Fixpoint joined (l : list (option string)) : option (list string) :=
  match l with
  | [] => Some []
  | None :: _ => None
  | Some x :: r =>
      match joined r with
      | Some xs => Some (x :: xs)
      | None => None
      end
  end.

(** ToString of a parsed value; [None] is the TypeError of a value that
    cannot be converted. An object parsed from JSON has no callable own
    property: one with an own [toString] hides [Object.prototype.toString]
    and is not convertible ([valueOf] gives no primitive either); any
    other object gives ["[object Object]"]. An array is joined with [","],
    [null] elements giving the empty string, and is not convertible when
    one of its elements is not. *)
Fixpoint toString (v : Json) : option string :=
  match v with
  | JNull => Some "null"
  | JBool true => Some "true"
  | JBool false => Some "false"
  | JNumber n => Some (pretty (int_value n))
  | JString s => Some s
  | JArray l =>
      match joined ((fix elems (l : list Json) : list (option string) :=
                       match l with
                       | [] => []
                       | JNull :: r => Some "" :: elems r
                       | x :: r => toString x :: elems r
                       end) l) with
      | Some xs => Some (join "," xs)
      | None => None
      end
  | JObject fields =>
      match assoc "toString" fields with
      | Some _ => None
      | None => Some "[object Object]"
      end
  end.

(** The TypeError of a failed conversion (the message is V8's). *)
Definition notConvertible : Exn :=
  mkExn "TypeError" "Cannot convert object to primitive value".

(** What [throw new Error(message)] throws: the new error, or the
    TypeError of converting [message], raised while the error is built. *)
Definition newError (message : Json) : Exn :=
  match toString message with
  | Some m => mkExn "Error" m
  | None => notConvertible
  end.

End Js.

(* ===================================================================== *)
(** ** frontend/lib/api.ts *)
(* ===================================================================== *)

Module Api.
Import Js.

Record Task := mkTask {
  id : Z;
  title : string;
  is_completed : bool;
  user_id : string;
  created_at : string;
  updated_at : string
}.

(** [Partial<Task>], restricted to the two fields the client sends. *)
Record PartialTask := mkPartial {
  p_title : option string;
  p_is_completed : option bool
}.

(** The part of [RequestInit] the client uses. [headers] is [None] when
    absent, or when it is a [Headers] instance or an array (both are
    replaced by the empty object in the source). *)
Record RequestInit := mkInit {
  method : option string;
  body : option string;
  headers : option (gmap string string)
}.

Definition noOptions : RequestInit := mkInit None None None.

Record Request := mkRequest {
  req_url : string;
  req_method : option string;
  req_body : option string;
  req_headers : gmap string string
}.

Record Response := mkResponse {
  ok : bool;
  status : Z;
  statusText : string;
  json : Settled Json        (* how [response.json()] settles *)
}.

(** [const backendUrl = process.env.NEXT_PUBLIC_BACKEND_URL || 'http://localhost:8000'] *)
Definition backendUrl (env : option string) : string :=
  match env with
  | Some u => if String.eqb u "" then "http://localhost:8000" else u
  | None => "http://localhost:8000"
  end.

(** lines 21-29: the headers object *)
Definition buildHeaders (token : option string) (options : RequestInit)
  : gmap string string :=
  let headers :=
    default ∅ (headers options) ∪ {[ "Content-Type" := "application/json" ]} in
  match token with
  | Some t =>
      if String.eqb t "" then headers
      else <[ "Authorization" := "Bearer " +:+ t ]> headers
  | None => headers
  end.

(** lines 36-49: the branch taken when [response.ok] is false.
    It always throws; the result is the thrown error. *)
Definition errorOf (response : Response) : Exn :=
  let errorMessage :=
    JString ("API request failed: " +:+ pretty (status response) +:+ " "
             +:+ statusText response) in
  let errorMessage :=
    match json response with
    | Fulfilled errorData =>
        match getProp errorData "detail" with
        | Some (Some detail) =>
            if truthy detail then detail else errorMessage
        | Some None => errorMessage     (* undefined is falsy *)
        | None => errorMessage          (* TypeError, swallowed by catch *)
        end
    | Rejected _ => errorMessage        (* swallowed by catch *)
    end in
  newError errorMessage.

(** [apiRequest<T>(endpoint, options)]. The environment supplies the
    value of the environment variable, the settlement of [getToken()] and
    [fetch]. *)
Definition apiRequest
    (env : option string)
    (getToken : Settled (option string))
    (fetch : Request -> Settled Response)
    (endpoint : string) (options : RequestInit) : Settled Json :=
  match getToken with
  | Rejected e => Rejected e
  | Fulfilled token =>
      let headers := buildHeaders token options in
      match fetch (mkRequest (backendUrl env +:+ endpoint)
                             (method options) (body options) headers) with
      | Rejected e => Rejected e
      | Fulfilled response =>
          if negb (ok response) then Rejected (errorOf response)
          else json response
      end
  end.

End Api.

(* ===================================================================== *)
(** ** frontend/app/page.tsx: the callbacks handed to every TaskItem *)
(* ===================================================================== *)

Module Page.
Import Api.

(** [setTasks(prevTasks => prevTasks.map(task =>
      task.id === updatedTask.id ? updatedTask : task))] *)
Definition handleTaskUpdated (updatedTask : Task) (prevTasks : list Task)
  : list Task :=
  (λ task, if decide (id task = id updatedTask) then updatedTask else task)
    <$> prevTasks.

(** [setTasks(prevTasks => prevTasks.filter(task => task.id !== taskId))] *)
Definition handleTaskDeleted (taskId : Z) (prevTasks : list Task)
  : list Task :=
  filter (λ task, id task ≠ taskId) prevTasks.

End Page.

(* ===================================================================== *)
(** ** frontend/components/TaskItem.tsx *)
(* ===================================================================== *)

Module TaskItem.
Import Js Api.

(** The five [useState] cells of the component. *)
Record State := mkState {
  isEditing : bool;
  title : string;
  isCompleted : bool;
  showDeleteConfirm : bool;
  isUpdating : bool
}.

(** The first render: [useState(false)], [useState(task.title)],
    [useState(task.is_completed)], [useState(false)], [useState(false)]. *)
Definition mount (task : Task) : State :=
  mkState false (Api.title task) (is_completed task) false false.

(** The thunks handed to the queue:
    [() => updateTask(id, updates)] and [() => deleteTask(id)]. *)
Inductive Action :=
| UpdateTask (id : Z) (updates : PartialTask)
| DeleteTask (id : Z).

(** What a handler does besides writing its own state. *)
Inductive Effect :=
| Enqueue (key : string) (action : Action)   (* taskUpdateQueue.enqueue *)
| OnTaskUpdated (updatedTask : Task)         (* props.onTaskUpdated *)
| OnTaskDeleted (taskId : Z)                 (* props.onTaskDeleted *)
| ConsoleError (msg : string) (error : Exn). (* console.error *)

(** A handler writes state cells through the setters and performs
    effects, in program order. *)
Definition Handler (A : Type) : Type := State → A * State * list Effect.

#[export] Instance Handler_ret : MRet Handler :=
  λ A a s, (a, s, []).
#[export] Instance Handler_bind : MBind Handler :=
  λ A B f m s,
    let '(a, s1, e1) := m s in
    let '(b, s2, e2) := f a s1 in
    (b, s2, e1 ++ e2).

Definition setIsEditing (b : bool) : Handler unit := λ s,
  (tt, mkState b (title s) (isCompleted s) (showDeleteConfirm s) (isUpdating s), []).
Definition setTitle (t : string) : Handler unit := λ s,
  (tt, mkState (isEditing s) t (isCompleted s) (showDeleteConfirm s) (isUpdating s), []).
Definition setIsCompleted (b : bool) : Handler unit := λ s,
  (tt, mkState (isEditing s) (title s) b (showDeleteConfirm s) (isUpdating s), []).
Definition setShowDeleteConfirm (b : bool) : Handler unit := λ s,
  (tt, mkState (isEditing s) (title s) (isCompleted s) b (isUpdating s), []).
Definition setIsUpdating (b : bool) : Handler unit := λ s,
  (tt, mkState (isEditing s) (title s) (isCompleted s) (showDeleteConfirm s) b, []).
Definition perform (e : Effect) : Handler unit := λ s, (tt, s, [e]).

(** The invocation of an async handler that is waiting at its [await],
    with the variables its continuation has captured. *)
Inductive Suspended :=
| AwaitToggle (previousState : bool)
| AwaitEdit (task : Task)
| AwaitDelete (task : Task).

(** The key literals of the three [enqueue] calls. *)
Definition toggleKey (task : Task) : string := "toggle-" +:+ pretty (id task).
Definition editKey (task : Task) : string := "edit-" +:+ pretty (id task).
Definition deleteKey (task : Task) : string := "delete-" +:+ pretty (id task).
#[global] Arguments toggleKey : simpl never.
#[global] Arguments editKey : simpl never.
#[global] Arguments deleteKey : simpl never.

(** One render of the component. The handlers are closures over the
    props and over the values the state cells have in this render. *)
Section Render.
Variable task : Task.
Variable render : State.

(** lines 25-40, up to the [await] *)
Definition handleToggleCompletion : Handler (option Suspended) :=
  if isUpdating render then mret None
  else
    setIsUpdating true ;;
    let previousState := isCompleted render in
    setIsCompleted (negb (isCompleted render)) ;;
    perform (Enqueue (toggleKey task)
               (UpdateTask (id task)
                  (mkPartial None (Some (negb previousState))))) ;;
    mret (Some (AwaitToggle previousState)).

Definition handleEditStart : Handler unit :=
  setIsEditing true ;;
  setTitle (Api.title task).

Definition handleEditCancel : Handler unit :=
  setIsEditing false ;;
  setTitle (Api.title task).

(** lines 63-76, up to the [await] *)
Definition handleEditSave : Handler (option Suspended) :=
  if isUpdating render || String.eqb (trim (title render)) "" then
    setTitle (Api.title task) ;;
    setIsEditing false ;;
    mret None
  else
    setIsUpdating true ;;
    perform (Enqueue (editKey task)
               (UpdateTask (id task)
                  (mkPartial (Some (trim (title render))) None))) ;;
    mret (Some (AwaitEdit task)).

(** lines 90-98, up to the [await] *)
Definition handleDelete : Handler (option Suspended) :=
  if isUpdating render then mret None
  else
    setIsUpdating true ;;
    perform (Enqueue (deleteKey task) (DeleteTask (id task))) ;;
    mret (Some (AwaitDelete task)).

(** [onChange={(e) => setTitle(e.target.value)}] *)
Definition onChange (value : string) : Handler unit := setTitle value.

(** [onClick={() => !isUpdating && setShowDeleteConfirm(true)}] *)
Definition onDeleteClick : Handler unit :=
  if negb (isUpdating render) then setShowDeleteConfirm true else mret tt.

(** [onClick={() => setShowDeleteConfirm(false)}] *)
Definition onDeleteCancel : Handler unit := setShowDeleteConfirm false.

End Render.

(** lines 41-50: [handleToggleCompletion] after the [await] *)
Definition resumeToggleCompletion (previousState : bool)
    (settled : Settled Task) : Handler unit :=
  match settled with
  | Fulfilled updatedTask =>
      setIsCompleted (is_completed updatedTask) ;;
      perform (OnTaskUpdated updatedTask)
  | Rejected error =>
      perform (ConsoleError "Failed to update task completion:" error) ;;
      setIsCompleted previousState
  end ;;
  setIsUpdating false.

(** lines 77-87: [handleEditSave] after the [await] *)
Definition resumeEditSave (task : Task) (settled : Settled Task)
  : Handler unit :=
  match settled with
  | Fulfilled updatedTask =>
      perform (OnTaskUpdated updatedTask) ;;
      setIsEditing false
  | Rejected error =>
      perform (ConsoleError "Failed to update task title:" error) ;;
      setTitle (Api.title task) ;;
      setIsEditing false
  end ;;
  setIsUpdating false.

(** lines 99-104: [handleDelete] after the [await] *)
Definition resumeDelete (task : Task) (settled : Settled unit)
  : Handler unit :=
  match settled with
  | Fulfilled _ =>
      perform (OnTaskDeleted (id task)) ;;
      setShowDeleteConfirm false
  | Rejected error =>
      perform (ConsoleError "Failed to delete task:" error) ;;
      setIsUpdating false
  end.

(** What the user sees of the entity: the check box shows the
    [isCompleted] cell; the title shows the input's [title] cell while
    editing and [task.title] otherwise. *)
Definition shownCompleted (s : State) : bool := isCompleted s.
Definition shownTitle (task : Task) (s : State) : string :=
  if isEditing s then title s else Api.title task.

End TaskItem.

(* ===================================================================== *)
(** ** One TaskItem on the page *)
(* ===================================================================== *)

Module App.
Import Js Api TaskItem.

(** The page keeps the task list; the observed TaskItem is the child
    rendered with React key [key]. *)
Record World := mkWorld {
  key : Z;
  tasks : list Task;              (* Home: [useState<Task[]>] *)
  item : State;                   (* the state cells of the TaskItem *)
  suspended : list Suspended;     (* its invocations waiting at [await] *)
  history : list Effect           (* what its handlers did, oldest first *)
}.

(** [tasks.map(task => <TaskItem key={task.id} task={task} .../>)] *)
Definition props (w : World) : option Task :=
  head (filter (λ task, id task = key w) (tasks w)).

(** The parent's reaction to an effect. *)
Definition deliver (ts : list Task) (e : Effect) : list Task :=
  match e with
  | OnTaskUpdated updatedTask => Page.handleTaskUpdated updatedTask ts
  | OnTaskDeleted taskId => Page.handleTaskDeleted taskId ts
  | Enqueue _ _ | ConsoleError _ _ => ts
  end.

Definition commit (w : World) (s : State) (es : list Effect)
    (waiting : list Suspended) : World :=
  mkWorld (key w) (foldl deliver (tasks w) es) s waiting (history w ++ es).

(** A user event runs a closure of the current render. *)
Definition fire (h : Task → State → Handler unit) (w : World) : World :=
  match props w with
  | None => w
  | Some task =>
      let '(_, s, es) := h task (item w) (item w) in
      commit w s es (suspended w)
  end.

Definition fireAsync (h : Task → State → Handler (option Suspended))
    (w : World) : World :=
  match props w with
  | None => w
  | Some task =>
      let '(k, s, es) := h task (item w) (item w) in
      commit w s es (suspended w ++ option_list k)
  end.

(** The promise awaited by the [i]-th suspended invocation settles. *)
Definition resume (i : nat) (settled : Settled (option Task)) (w : World)
  : World :=
  match suspended w !! i with
  | None => w
  | Some k =>
      let continuation : option (Handler unit) :=
        match k, settled with
        | AwaitToggle previousState, Fulfilled (Some updatedTask) =>
            Some (resumeToggleCompletion previousState (Fulfilled updatedTask))
        | AwaitToggle previousState, Rejected e =>
            Some (resumeToggleCompletion previousState (Rejected e))
        | AwaitEdit task, Fulfilled (Some updatedTask) =>
            Some (resumeEditSave task (Fulfilled updatedTask))
        | AwaitEdit task, Rejected e =>
            Some (resumeEditSave task (Rejected e))
        | AwaitDelete task, Fulfilled None =>
            Some (resumeDelete task (Fulfilled tt))
        | AwaitDelete task, Rejected e =>
            Some (resumeDelete task (Rejected e))
        | _, _ => None          (* excluded by the promise's type *)
        end in
      match continuation with
      | None => w
      | Some c =>
          let '(_, s, es) := c (item w) in
          commit w s es (delete i (suspended w))
      end
  end.

Inductive Event :=
| Toggle                       (* handleToggleCompletion *)
| EditStart                    (* handleEditStart *)
| EditCancel                   (* handleEditCancel *)
| Change (value : string)      (* the input's onChange *)
| EditSave                     (* handleEditSave *)
| DeleteClick                  (* the bin button *)
| DeleteCancel                 (* the dialog's Cancel *)
| Delete                       (* handleDelete *)
| Settle (i : nat) (settled : Settled (option Task)).

Definition step (w : World) (ev : Event) : World :=
  match ev with
  | Toggle => fireAsync handleToggleCompletion w
  | EditStart => fire (λ task _, handleEditStart task) w
  | EditCancel => fire (λ task _, handleEditCancel task) w
  | Change value => fire (λ _ _, onChange value) w
  | EditSave => fireAsync handleEditSave w
  | DeleteClick => fire (λ _ render, onDeleteClick render) w
  | DeleteCancel => fire (λ _ _, onDeleteCancel) w
  | Delete => fireAsync handleDelete w
  | Settle i settled => resume i settled w
  end.

Definition run (w : World) (evs : list Event) : World := foldl step w evs.

(** The page right after it has rendered the list: the item is mounted
    on [task], nothing is in flight. *)
Definition boot (ts : list Task) (task : Task) : World :=
  mkWorld (id task) ts (mount task) [] [].

(** The remote operations of the item that have been handed to the queue
    and have not settled. *)
Definition inFlight (w : World) : nat := length (suspended w).

Definition isEnqueue (e : Effect) : bool :=
  match e with Enqueue _ _ => true | _ => false end.

Definition enqueues (es : list Effect) : list Effect :=
  List.filter isEnqueue es.

(** The suspended invocations whose promise carries a task
    ([Promise<Task>]); the one of [handleDelete] carries nothing. *)
Definition awaitsTask (k : Suspended) : bool :=
  match k with
  | AwaitToggle _ | AwaitEdit _ => true
  | AwaitDelete _ => false
  end.

(** The event is the success of a remote delete. *)
Definition confirmsDelete (w : World) (ev : Event) : bool :=
  match ev with
  | Settle i (Fulfilled None) =>
      match suspended w !! i with
      | Some (AwaitDelete _) => true
      | _ => false
      end
  | _ => false
  end.

(** While an invocation is suspended the [isUpdating] cell is set, and
    there is never more than one. *)
Definition guarded (w : World) : Prop :=
  (length (suspended w) ≤ 1)%nat
  ∧ (suspended w ≠ [] → isUpdating (item w) = true).

End App.

(* ===================================================================== *)
(** ** @/lib/requestQueue *)
(* ===================================================================== *)

Module RequestQueue.

Section Queue.
(** [A]: the actions (zero-argument async functions);
    [O]: how an action can settle (its result or its failure). *)
Context {A O : Type}.

(** Modelled from the spec: the file [lib/requestQueue.ts] that defines
    [taskUpdateQueue] is absent. A lane is the FIFO sequence of the
    pending operations of one key plus the flag telling whether the lane
    is executing; while it executes, the action in flight is the head of
    the sequence. *)
Record Lane := mkLane {
  sequence : list A;
  executing : bool
}.

(** Modelled from the spec: the registry of lanes, absent with the
    queue's file. [started] and [settled] record, oldest first, which
    actions the queue has started and which promises returned by
    [enqueue] it has settled, with the outcome. *)
Record Queue := mkQueue {
  lanes : gmap string Lane;
  started : list (string * A);
  settled : list (string * (A * O))
}.

(** Modelled from the spec: (missing queue file) lanes are created lazily,
    so the registry starts without any. *)
Definition empty : Queue := mkQueue ∅ [] [].

(** Modelled from the spec: (missing queue file) an idle lane with a
    pending action begins to execute its first action. *)
Definition process (key : string) (q : Queue) : Queue :=
  match lanes q !! key with
  | Some (mkLane (a :: rest) false) =>
      mkQueue (<[key := mkLane (a :: rest) true]> (lanes q))
              (started q ++ [(key, a)]) (settled q)
  | _ => q
  end.

(** Modelled from the spec: (missing queue file) [enqueue(key, action)]
    appends the action to the lane of [key], created on first use; if
    the lane was idle it begins execution immediately, otherwise the
    action waits behind the actions enqueued before it. *)
Definition enqueue (key : string) (action : A) (q : Queue) : Queue :=
  let lane := default (mkLane [] false) (lanes q !! key) in
  process key
    (mkQueue (<[key := mkLane (sequence lane ++ [action]) (executing lane)]>
                (lanes q))
             (started q) (settled q)).

(** Modelled from the spec: (missing queue file) the action in flight
    on the lane of [key] settles with [outcome], success or failure
    alike: the outcome goes to the caller that enqueued this action,
    the lane moves on to the next action, and a lane whose sequence
    has become empty is removed. Without an action in flight there is
    nothing to settle. *)
Definition settle (key : string) (outcome : O) (q : Queue) : Queue :=
  match lanes q !! key with
  | Some (mkLane (a :: rest) true) =>
      let settled' := settled q ++ [(key, (a, outcome))] in
      match rest with
      | [] => mkQueue (delete key (lanes q)) (started q) settled'
      | _ :: _ =>
          process key
            (mkQueue (<[key := mkLane rest false]> (lanes q))
                     (started q) settled')
      end
  | _ => q
  end.

(** What happens to the queue: a caller enqueues, or the remote call of
    the action in flight on a lane comes back. The latency of an action
    is the number of events between its start and its [Done]. *)
Inductive Event :=
| Enq (key : string) (action : A)
| Done (key : string) (outcome : O).

Definition step (q : Queue) (ev : Event) : Queue :=
  match ev with
  | Enq key action => enqueue key action q
  | Done key outcome => settle key outcome q
  end.

Definition run (evs : list Event) : Queue := foldl step empty evs.

(** The entries of a log that belong to one key, in the log's order. *)
Definition on {B : Type} (key : string) (log : list (string * B)) : list B :=
  (filter (λ x, x.1 = key) log).*2.

(** The actions enqueued under each key by a trace, in enqueue order. *)
Definition enqueued (evs : list Event) : list (string * A) :=
  omap (λ ev, match ev with
              | Enq key action => Some (key, action)
              | Done _ _ => None
              end) evs.

(** The actions of a lane that have not settled. *)
Definition unsettled (key : string) (q : Queue) : list A :=
  match lanes q !! key with
  | Some lane => sequence lane
  | None => []
  end.

(** The action in flight on a lane, if any. *)
Definition inFlight (key : string) (q : Queue) : list A :=
  match lanes q !! key with
  | Some (mkLane (a :: _) true) => [a]
  | _ => []
  end.

(** Every lane of the registry is executing a non-empty sequence. *)
Definition busy (q : Queue) : Prop :=
  ∀ key lane, lanes q !! key = Some lane →
              executing lane = true ∧ sequence lane ≠ [].

(** The bookkeeping of one key. *)
Record lane_inv (k : string) (enq : list A) (q : Queue) : Prop := {
  inv_order : (on k (settled q)).*1 ++ unsettled k q = enq;
  inv_started : on k (started q) = (on k (settled q)).*1 ++ inFlight k q
}.

(** All that the queue holds about one key. *)
Definition view (k : string) (q : Queue)
  : option Lane * list A * list (A * O) :=
  (lanes q !! k, on k (started q), on k (settled q)).

Definition keyOf (ev : Event) : string :=
  match ev with Enq key _ => key | Done key _ => key end.

End Queue.

Arguments Lane : clear implicits.
Arguments Queue : clear implicits.
Arguments Event : clear implicits.

End RequestQueue.

(* ===================================================================== *)
(** ** The item's calls to [taskUpdateQueue] *)
(* ===================================================================== *)

Module Wiring.
Import Js Api TaskItem.

(** The queue after the [enqueue] calls among the effects [es], before any
    remote call has come back. *)
Definition submitted (es : list Effect)
  : RequestQueue.Queue Action (Settled (option Task)) :=
  foldl (λ q e, match e with
                | Enqueue key action => RequestQueue.enqueue key action q
                | _ => q
                end)
        RequestQueue.empty es.

End Wiring.

(* ===================================================================== *)
(** ** Concrete data for the examples *)
(* ===================================================================== *)

Module Sample.
Import Js Api TaskItem App.

Definition milk : Task :=
  mkTask 42 "Buy milk" false "user-1" "2026-01-05T09:00:00" "2026-01-05T09:00:00".

Definition bread : Task :=
  mkTask 7 "Buy bread" true "user-1" "2026-01-04T18:30:00" "2026-01-04T18:30:00".

(** [milk] as the server returns it after a toggle that also normalised
    the title. *)
Definition milkDone : Task :=
  mkTask 42 "Buy milk (2l)" true "user-1" "2026-01-05T09:00:00" "2026-01-06T08:00:00".

Definition page : World := boot [bread; milk] milk.

Definition networkDown : Exn := mkExn "TypeError" "Failed to fetch".

(** A toggle is in flight; the user then opens the title editor and types. *)
Definition toggling : World :=
  run page [Toggle; EditStart; Change "Buy oat milk"].

(** A rename is in flight. *)
Definition renaming : World :=
  run page [EditStart; Change "Buy oat milk"; EditSave].

(** A delete is in flight. *)
Definition deleting : World := run page [DeleteClick; Delete].

(** A 400 answer whose body is [{"detail": ""}]. *)
Definition emptyDetail : Response :=
  mkResponse false 400 "Bad Request" (Fulfilled (JObject [("detail", JString "")])).

(** A 404 answer whose body is [{"detail": "Task not found"}]. *)
Definition notFound : Response :=
  mkResponse false 404 "Not Found"
    (Fulfilled (JObject [("detail", JString "Task not found")])).

(** A 422 answer whose detail is the object [{"toString": 5}]. *)
Definition hostileDetail : Response :=
  mkResponse false 422 "Unprocessable Entity"
    (Fulfilled (JObject [("detail",
                          JObject [("toString", JNumber (mkSafe 5 I))])])).

(** A 502 answer with an HTML body: [json()] rejects. *)
Definition badGateway : Response :=
  mkResponse false 502 "Bad Gateway"
    (Rejected (mkExn "SyntaxError" "Unexpected token < in JSON at position 0")).

End Sample.

(* ===================================================================== *)
(** ** JSON.stringify and the four task calls of frontend/lib/api.ts *)
(* ===================================================================== *)

Module JsonText.
Import Js.

Definition quoteMark : string := String (ascii_of_nat 34) EmptyString.
Definition backslash : string := String (ascii_of_nat 92) EmptyString.

(** One lowercase hexadecimal digit. *)
Definition hexDigit (n : nat) : ascii :=
  ascii_of_nat (if (n <? 10)%nat then 48 + n else 87 + n).

(** QuoteJSONString on one code unit below 256: the two-character
    escapes, [\u00xx] for the other control characters, the code unit
    itself otherwise. *)
Definition escapeChar (c : ascii) : string :=
  let n := nat_of_ascii c in
  if (n =? 8)%nat then backslash +:+ "b"
  else if (n =? 9)%nat then backslash +:+ "t"
  else if (n =? 10)%nat then backslash +:+ "n"
  else if (n =? 12)%nat then backslash +:+ "f"
  else if (n =? 13)%nat then backslash +:+ "r"
  else if (n =? 34)%nat then backslash +:+ quoteMark
  else if (n =? 92)%nat then backslash +:+ backslash
  else if (n <? 32)%nat then
    backslash +:+ "u00"
      +:+ String (hexDigit (n / 16)) (String (hexDigit (n mod 16)) EmptyString)
  else String c EmptyString.

Fixpoint escape (s : string) : string :=
  match s with
  | EmptyString => EmptyString
  | String c r => escapeChar c +:+ escape r
  end.

Definition quote (s : string) : string := quoteMark +:+ escape s +:+ quoteMark.

(** [JSON.stringify(value)] without indentation. *)
Fixpoint stringify (v : Json) : string :=
  match v with
  | JNull => "null"
  | JBool true => "true"
  | JBool false => "false"
  | JNumber n => pretty (int_value n)
  | JString s => quote s
  | JArray l =>
      "[" +:+ join "," ((fix elems (l : list Json) : list string :=
                           match l with
                           | [] => []
                           | x :: r => stringify x :: elems r
                           end) l) +:+ "]"
  | JObject fields =>
      "{" +:+ join "," ((fix props (l : list (string * Json)) : list string :=
                           match l with
                           | [] => []
                           | (k, x) :: r => (quote k +:+ ":" +:+ stringify x) :: props r
                           end) fields) +:+ "}"
  end.

End JsonText.

Module TaskApi.
Import Js Api JsonText.

(** The object literal a [Partial<Task>] of the client stands for; an
    absent field is no property. *)
Definition partialJson (updates : PartialTask) : Json :=
  JObject
    (match p_title updates with Some t => [("title", JString t)] | None => [] end
     ++ match p_is_completed updates with
        | Some b => [("is_completed", JBool b)]
        | None => []
        end).

Section Environment.
Variable env : option string.                  (* NEXT_PUBLIC_BACKEND_URL *)
Variable getToken : Settled (option string).   (* how [getToken()] settles *)
Variable fetch : Request → Settled Response.

(** lines 55-57 *)
Definition getTasks : Settled Json :=
  apiRequest env getToken fetch "/api/tasks" noOptions.

(** lines 59-64 *)
Definition createTask (title : string) : Settled Json :=
  apiRequest env getToken fetch "/api/tasks"
    (mkInit (Some "POST")
            (Some (stringify (JObject [("title", JString title)]))) None).

(** lines 66-71 *)
Definition updateTask (id : Z) (updates : PartialTask) : Settled Json :=
  apiRequest env getToken fetch ("/api/tasks/" +:+ pretty id)
    (mkInit (Some "PUT") (Some (stringify (partialJson updates))) None).

(** lines 73-77: the awaited value is dropped *)
Definition deleteTask (id : Z) : Settled unit :=
  match apiRequest env getToken fetch ("/api/tasks/" +:+ pretty id)
          (mkInit (Some "DELETE") None None) with
  | Fulfilled _ => Fulfilled tt
  | Rejected e => Rejected e
  end.

End Environment.

(** [HeadersInit]: the three shapes [options.headers] can have. *)
Inductive HeadersInit :=
| PlainObject (h : gmap string string)
| HeadersInstance (h : gmap string string)   (* new Headers(...) *)
| PairArray (l : list (string * string)).     (* [[name, value], ...] *)

(** line 23: [(options.headers instanceof Headers ||
    Array.isArray(options.headers)) ? {} : (options.headers || {})];
    only a plain object is spread into the headers of the request. *)
Definition spreadable (given : option HeadersInit) : option (gmap string string) :=
  match given with
  | Some (PlainObject h) => Some h
  | Some (HeadersInstance _) | Some (PairArray _) | None => None
  end.

(** The options of a caller who passes [given] as [headers]. *)
Definition optionsOf (method body : option string) (given : option HeadersInit)
  : RequestInit :=
  mkInit method body (spreadable given).

(** The request [apiRequest] hands to [fetch]. *)
Definition requestFor (env : option string) (token : option string)
    (endpoint : string) (options : RequestInit) : Request :=
  mkRequest (backendUrl env +:+ endpoint) (method options) (body options)
            (buildHeaders token options).

(** What the promise returned by [enqueue] carries for a delete: the
    settlement of [deleteTask], whose value is [undefined]. *)
Definition deleteSettlement (settled : Settled unit) : Settled (option Task) :=
  match settled with
  | Fulfilled _ => Fulfilled None
  | Rejected e => Rejected e
  end.

End TaskApi.

(* ===================================================================== *)
(** ** TaskItem.tsx: the keyboard handler of the title input *)
(* ===================================================================== *)

Module TaskItemKeys.
Import Js Api TaskItem.

(** lines 107-113; the promise of [handleEditSave()] is not awaited *)
Definition handleKeyDown (task : Task) (render : State) (key : string)
  : Handler (option Suspended) :=
  if String.eqb key "Enter" then handleEditSave task render
  else if String.eqb key "Escape" then
    handleEditCancel task ;; mret None
  else mret None.

(** The title a queued action carries, if it is a rename. *)
Definition renamedTo (e : Effect) : option string :=
  match e with
  | Enqueue _ (UpdateTask _ updates) => p_title updates
  | _ => None
  end.

(** No leading and no trailing white space. *)
Definition startsClean (s : string) : Prop :=
  match s with
  | EmptyString => True
  | String c _ => isWhiteSpace c = false
  end.
Definition trimmed (s : string) : Prop :=
  startsClean s ∧ startsClean (String.rev s).

(** The entity and the lane an effect addresses. *)
Definition addresses (task : Task) (e : Effect) : Prop :=
  match e with
  | Enqueue key (UpdateTask i updates) =>
      i = id task
      ∧ ((key = toggleKey task ∧ p_title updates = None
          ∧ is_Some (p_is_completed updates))
         ∨ (key = editKey task ∧ is_Some (p_title updates)
            ∧ p_is_completed updates = None))
  | Enqueue key (DeleteTask i) => i = id task ∧ key = deleteKey task
  | OnTaskDeleted i => i = id task
  | OnTaskUpdated _ | ConsoleError _ _ => True
  end.

(** The task a suspended invocation has captured is the item's. *)
Definition owned (task : Task) (k : Suspended) : Prop :=
  match k with
  | AwaitToggle _ => True
  | AwaitEdit t | AwaitDelete t => id t = id task
  end.

End TaskItemKeys.

(* ===================================================================== *)
(** ** frontend/app/page.tsx: creating a task *)
(* ===================================================================== *)

Module Home.
Import Js Api.

(** The cells [handleCreateTask] reads and writes. *)
Record State := mkState {
  newTaskTitle : string;
  tasks : list Task
}.

Inductive Effect :=
| PreventDefault                       (* e.preventDefault() *)
| ExecuteCreate (title : string).      (* createApi.execute(() => createTask(title)) *)

(** lines 32-37, up to the [await]. The result tells whether the handler
    is waiting for [createApi.execute]. Nothing is written before the
    [await]. *)
Definition handleCreateTask (render : State) : bool * list Effect :=
  if String.eqb (trim (newTaskTitle render)) "" then (false, [PreventDefault])
  else (true, [PreventDefault; ExecuteCreate (trim (newTaskTitle render))]).

(** lines 39-42, after the [await]. [newTask] is what [execute] resolved
    to ([None] for a falsy value) and [error] the [createApi.error] the
    closure sees; the hook [useApi] is not among the sources. Both state
    updates act on the state at the time they are applied. *)
Definition resumeCreateTask (newTask : option Task) (error : option Exn)
    (s : State) : State :=
  match newTask, error with
  | Some t, None => mkState "" (tasks s ++ [t])
  | _, _ => s
  end.

End Home.

(* ===================================================================== *)
(** ** FilterPanel (second component of frontend/app/page.tsx) *)
(* ===================================================================== *)

Module FilterPanel.

(** The three props, held by the page in three state cells. *)
Record Filters := mkFilters {
  status : string;
  priority : string;
  datePreset : string
}.

(** The callbacks of the props; the page passes its setters. *)
Inductive Callback :=
| OnStatusChange (value : string)
| OnPriorityChange (value : string)
| OnDatePresetChange (value : string).

Definition call (f : Filters) (c : Callback) : Filters :=
  match c with
  | OnStatusChange v => mkFilters v (priority f) (datePreset f)
  | OnPriorityChange v => mkFilters (status f) v (datePreset f)
  | OnDatePresetChange v => mkFilters (status f) (priority f) v
  end.

(** lines 228-232 *)
Definition handleReset : list Callback :=
  [OnStatusChange "all"; OnPriorityChange "all"; OnDatePresetChange "all"].

(** line 234 *)
Definition hasActiveFilters (f : Filters) : bool :=
  negb (String.eqb (status f) "all")
  || negb (String.eqb (priority f) "all")
  || negb (String.eqb (datePreset f) "all").

End FilterPanel.

(* ===================================================================== *)
(** ** The login page: [handleSubmit] of [LoginPage]
       (src/unnamed/part_000, lines 34-79) *)
(* ===================================================================== *)

Module Login.
Import Js.

(** The cells of [LoginPage] that [handleSubmit] reads or writes. *)
Record State := mkState {
  isLogin : bool;
  email : string;
  password : string;
  name : string;
  confirmPassword : string;
  error : string;
  loading : bool
}.

Inductive Effect :=
| PreventDefault
| SignIn (email password : string)
| SignUp (email password name : string)
| RouterPush (path : string)
| ConsoleError (err : Exn)
| Uncaught.          (* the handler's own promise rejects *)

(** What the [catch] clause receives: [null] or [undefined], or a value
    whose [message] property reads as [exn_message] (the empty string when
    the value has no message or a falsy one). *)
Inductive Thrown :=
| Nullish
| Carrying (err : Exn).

(** How the promise of [signIn] or [signUp] settles; [result] is [true]
    for a truthy value. *)
Inductive Settlement :=
| Resolved (result : bool)
| Threw (err : Thrown).

Definition Handler (A : Type) : Type := State → A * State * list Effect.

#[export] Instance Handler_ret : MRet Handler :=
  λ A a s, (a, s, []).
#[export] Instance Handler_bind : MBind Handler :=
  λ A B f m s,
    let '(a, s1, e1) := m s in
    let '(b, s2, e2) := f a s1 in
    (b, s2, e1 ++ e2).

Definition setError (m : string) : Handler unit := λ s,
  (tt, mkState (isLogin s) (email s) (password s) (name s) (confirmPassword s)
               m (loading s), []).
Definition setLoading (b : bool) : Handler unit := λ s,
  (tt, mkState (isLogin s) (email s) (password s) (name s) (confirmPassword s)
               (error s) b, []).
Definition perform (e : Effect) : Handler unit := λ s, (tt, s, [e]).

(** [s.split('@')[0]]: the part before the first ['@'], all of [s] when
    there is none. *)
Fixpoint beforeAt (s : string) : string :=
  match s with
  | EmptyString => EmptyString
  | String c r =>
      if Ascii.eqb c "@"%char then EmptyString else String c (beforeAt r)
  end.

Fixpoint hasAt (s : string) : bool :=
  match s with
  | EmptyString => false
  | String c r => Ascii.eqb c "@"%char || hasAt r
  end.

(** Which call the suspended invocation is waiting for. *)
Inductive Suspended := AwaitSignIn | AwaitSignUp.

(** [handleSubmit], up to its [await]. The early returns of the sign-up
    branch leave the [try] block, so the [finally] clause runs for them. *)
Definition handleSubmit (render : State) : Handler (option Suspended) :=
  perform PreventDefault ;;
  setError "" ;;
  setLoading true ;;
  if isLogin render then
    perform (SignIn (email render) (password render)) ;;
    mret (Some AwaitSignIn)
  else if negb (String.eqb (password render) (confirmPassword render)) then
    setError "Passwords do not match" ;;
    setLoading false ;;
    setLoading false ;;
    mret None
  else if (String.length (password render) <? 8)%nat then
    setError "Password must be at least 8 characters" ;;
    setLoading false ;;
    setLoading false ;;
    mret None
  else
    perform (SignUp (email render) (password render)
               (if String.eqb (name render) "" then beforeAt (email render)
                else name render)) ;;
    mret (Some AwaitSignUp).

(** [handleSubmit] after its [await]. Reading [err.message] of [null] or
    [undefined] throws inside the [catch] clause: nothing is shown or
    logged, the [finally] clause still runs and the handler's promise
    rejects. *)
Definition resumeSubmit (k : Suspended) (settled : Settlement)
  : Handler unit :=
  match settled with
  | Resolved result =>
      if negb result then
        setError (match k with
                  | AwaitSignIn => "Sign in failed. Please try again."
                  | AwaitSignUp => "Sign up failed. Please try again."
                  end)
      else perform (RouterPush "/")
  | Threw (Carrying err) =>
      setError (if String.eqb (exn_message err) ""
                then "An unexpected error occurred" else exn_message err) ;;
      perform (ConsoleError err)
  | Threw Nullish => mret tt
  end ;;
  setLoading false ;;
  match settled with
  | Threw Nullish => perform Uncaught
  | _ => mret tt
  end.

(** A whole submission: the prefix and, when it suspended, the
    continuation on the settlement [auth] of the call it made. *)
Definition submit (auth : Settlement) (s : State) : State * list Effect :=
  let '(k, s1, es1) := handleSubmit s s in
  match k with
  | None => (s1, es1)
  | Some k =>
      let '(_, s2, es2) := resumeSubmit k auth s1 in
      (s2, es1 ++ es2)
  end.


End Login.

(* ===================================================================== *)
(** ** TaskItem.tsx: what the item renders *)
(* ===================================================================== *)

Module TaskItemView.
Import Js Api TaskItem App.

(** line 135: the check box, the only caller of
    [handleToggleCompletion], is rendered with [disabled={isUpdating}];
    a disabled button receives no click. *)
Definition toggleDisabled (s : State) : bool := isUpdating s.

(** What the item shows of its task: the title (the input's value while
    editing, [task.title] otherwise) and the check box. *)
Definition shown (w : World) : option (string * bool) :=
  match props w with
  | Some task => Some (shownTitle task (item w), shownCompleted (item w))
  | None => None
  end.

(** The keys of the [enqueue] calls among the effects of a handler. *)
Definition keysOf (es : list Effect) : list string :=
  omap (λ e, match e with Enqueue key _ => Some key | _ => None end) es.

End TaskItemView.

(* ===================================================================== *)
(** ** More concrete data *)
(* ===================================================================== *)

Module Sample2.
Import Js Api TaskItem App Sample.

(** A 204 answer: ok, but there is no body to parse. *)
Definition noContent : Response :=
  mkResponse true 204 "No Content"
    (Rejected (mkExn "SyntaxError" "Unexpected end of JSON input")).

(** A 200 answer to a delete, with a JSON body. *)
Definition deletedOk : Response :=
  mkResponse true 200 "OK"
    (Fulfilled (JObject [("message", JString "Task deleted")])).

(** The item of [milk] after its delete has been confirmed. *)
Definition deleted : World := step deleting (Settle 0 (Fulfilled None)).

(** [milk] as the server returns it after the rename, completed in the
    meantime on the server. *)
Definition milkRenamed : Task :=
  mkTask 42 "Buy oat milk" true "user-1" "2026-01-05T09:00:00"
         "2026-01-06T08:00:00".

(** The title input of [milk] holds a draft padded with blanks. *)
Definition drafting : State := mkState true "  Buy oat milk " false false false.

End Sample2.

(* ===================================================================== *)
(** * Properties *)
(* ===================================================================== *)

(** ** The keyed serial queue *)

Module QueueFacts.
Import RequestQueue.

Section Facts.
Context {A O : Type}.
Implicit Types (q : Queue A O) (ev : Event A O) (tr : list (Event A O)).
Implicit Types (k key : string).

Lemma on_snoc {B} k key (x : B) (log : list (string * B)) :
  on k (log ++ [(key, x)]) = on k log ++ (if decide (key = k) then [x] else []).
Proof.
  unfold on. rewrite filter_app, fmap_app. f_equal.
  rewrite filter_cons, filter_nil. simpl.
  destruct (decide (key = k)); reflexivity.
Qed.

Lemma run_snoc tr ev : run (tr ++ [ev]) = step (run tr) ev.
Proof. unfold run. by rewrite foldl_app. Qed.

Lemma enqueued_snoc tr ev :
  enqueued (tr ++ [ev]) =
  enqueued tr ++ match ev with Enq key a => [(key, a)] | Done _ _ => [] end.
Proof. unfold enqueued. rewrite omap_app. by destruct ev. Qed.

Lemma busy_empty : busy (@empty A O).
Proof. intros key lane. simpl. by rewrite lookup_empty. Qed.

Lemma busy_step q ev : busy q → busy (step q ev).
Proof.
  intros Hb. destruct ev as [key a | key o]; simpl.
  - unfold enqueue, process. simpl. rewrite lookup_insert_eq.
    destruct (lanes q !! key) as [[l e]|] eqn:Hl; simpl.
    + destruct (Hb _ _ Hl) as [He Hne]. simpl in *. subst e.
      destruct l as [|x l]; [done|]. simpl.
      intros key' lane'. simpl. rewrite lookup_insert.
      case_decide; [|by apply Hb]. intros [= <-]. done.
    + intros key' lane'. simpl. rewrite insert_insert_eq, lookup_insert.
      case_decide; [|by apply Hb]. intros [= <-]. done.
  - unfold settle.
    destruct (lanes q !! key) as [[[|x l] [|]]|] eqn:Hl; try done.
    destruct l as [|y l].
    + intros key' lane'. simpl. rewrite lookup_delete.
      case_decide; [done|]. by apply Hb.
    + unfold process. simpl. rewrite lookup_insert_eq.
      intros key' lane'. simpl. rewrite insert_insert_eq, lookup_insert.
      case_decide; [|by apply Hb]. intros [= <-]. done.
Qed.

Lemma busy_run tr : busy (run tr).
Proof.
  induction tr as [|ev tr IH] using rev_ind; [apply busy_empty|].
  rewrite run_snoc. by apply busy_step.
Qed.

Lemma busy_inFlight q k : busy q → inFlight k q = take 1 (unsettled k q).
Proof.
  intros Hb. unfold inFlight, unsettled.
  destruct (lanes q !! k) as [[l e]|] eqn:Hl; [|done].
  destruct (Hb _ _ Hl) as [He Hne]. simpl in *. subst e.
  by destruct l.
Qed.

Lemma view_step_other k q ev : keyOf ev ≠ k → view k (step q ev) = view k q.
Proof.
  intros Hk. destruct ev as [key a | key o]; simpl in Hk; simpl.
  - unfold enqueue, process; simpl. rewrite lookup_insert_eq.
    destruct (lanes q !! key) as [[[|x l] [|]]|]; unfold view; simpl;
      rewrite ?insert_insert_eq, ?on_snoc, ?lookup_insert_ne by done;
      rewrite ?decide_False, ?app_nil_r by done; done.
  - unfold settle.
    destruct (lanes q !! key) as [[[|x [|y l]] [|]]|]; try done;
      unfold process, view; simpl;
      rewrite ?lookup_insert_eq; simpl;
      rewrite ?insert_insert_eq, ?on_snoc, ?lookup_insert_ne,
        ?lookup_delete_ne by done;
      rewrite ?decide_False, ?app_nil_r by done; done.
Qed.

Lemma view_step_same k q q' ev :
  keyOf ev = k → view k q = view k q' →
  view k (step q ev) = view k (step q' ev).
Proof.
  intros Hk [= Hl Hst Hse]. destruct ev as [key a | key o];
    simpl in Hk; subst key; simpl.
  - unfold enqueue, process; simpl. rewrite !lookup_insert_eq, <- Hl.
    destruct (lanes q !! k) as [[[|x l] [|]]|]; unfold view; simpl;
      rewrite ?insert_insert_eq, ?on_snoc, ?lookup_insert_eq, ?Hst, ?Hse;
      done.
  - unfold settle. rewrite <- Hl.
    destruct (lanes q !! k) as [[[|x [|y l]] [|]]|] eqn:Hq;
      unfold process, view; simpl;
      rewrite ?lookup_insert_eq; simpl;
      rewrite ?insert_insert_eq, ?on_snoc, ?lookup_insert_eq,
        ?lookup_delete_eq, <- ?Hl, ?Hq, ?Hst, ?Hse; done.
Qed.

Lemma lane_inv_view k enq q q' :
  view k q = view k q' → lane_inv k enq q → lane_inv k enq q'.
Proof.
  intros [= Hl Hst Hse] [Ho Hs].
  split; unfold unsettled, inFlight in *; rewrite <- ?Hl, <- ?Hst, <- ?Hse;
    done.
Qed.

Lemma lane_inv_step k enq q ev :
  busy q → lane_inv k enq q →
  lane_inv k
    (enq ++ match ev with
            | Enq key a => if decide (key = k) then [a] else []
            | Done _ _ => []
            end)
    (step q ev).
Proof.
  intros Hb Hinv. destruct (decide (keyOf ev = k)) as [Hk|Hk].
  - destruct Hinv as [Ho Hs].
    destruct ev as [key a | key o]; simpl in Hk; subst key.
    + rewrite decide_True by done.
      split; simpl; unfold enqueue, process, unsettled, inFlight in *;
        simpl; rewrite lookup_insert_eq;
        destruct (lanes q !! k) as [[l e]|] eqn:Hl; simpl.
      * destruct (Hb _ _ Hl) as [He Hne]. simpl in *. subst e.
        destruct l as [|x l]; [done|]. simpl.
        rewrite lookup_insert_eq. simpl. subst enq.
        by rewrite <- !app_assoc.
      * rewrite insert_insert_eq, lookup_insert_eq. simpl.
        rewrite app_nil_r in Ho. by subst enq.
      * destruct (Hb _ _ Hl) as [He Hne]. simpl in *. subst e.
        destruct l as [|x l]; [done|]. simpl.
        by rewrite lookup_insert_eq.
      * rewrite insert_insert_eq, lookup_insert_eq, on_snoc.
        rewrite decide_True by done. rewrite Hs. by rewrite !app_nil_r.
    + rewrite app_nil_r.
      split; simpl; unfold settle, unsettled, inFlight in *;
        destruct (lanes q !! k) as [[l e]|] eqn:Hl; simpl;
        try rewrite Hl; try done.
      * destruct (Hb _ _ Hl) as [He Hne]. simpl in *. subst e.
        destruct l as [|x [|y l]]; [done| |]; simpl.
        -- rewrite lookup_delete_eq, on_snoc, decide_True by done.
           rewrite fmap_app. simpl. subst enq. by rewrite app_nil_r.
        -- unfold process. simpl. rewrite lookup_insert_eq. simpl.
           rewrite insert_insert_eq, lookup_insert_eq, on_snoc.
           rewrite decide_True by done. rewrite fmap_app. simpl.
           subst enq. by rewrite <- app_assoc.
      * destruct (Hb _ _ Hl) as [He Hne]. simpl in *. subst e.
        destruct l as [|x [|y l]]; [done| |]; simpl.
        -- rewrite lookup_delete_eq, on_snoc, decide_True by done.
           rewrite fmap_app. simpl. rewrite Hs. by rewrite app_nil_r.
        -- unfold process. simpl. rewrite lookup_insert_eq. simpl.
           rewrite insert_insert_eq, lookup_insert_eq, !on_snoc.
           rewrite !decide_True by done. rewrite fmap_app. simpl.
           rewrite Hs. by rewrite <- !app_assoc.
  - apply (lane_inv_view k _ q); [by rewrite view_step_other|].
    destruct ev as [key a | key o]; simpl in Hk.
    + by rewrite decide_False, app_nil_r.
    + by rewrite app_nil_r.
Qed.

Lemma lane_inv_run k tr : lane_inv k (on k (enqueued tr)) (run tr).
Proof.
  induction tr as [|ev tr IH] using rev_ind.
  - by split.
  - rewrite run_snoc, enqueued_snoc.
    pose proof (lane_inv_step k _ _ ev (busy_run tr) IH) as H.
    destruct ev as [key a | key o].
    + by rewrite on_snoc.
    + rewrite app_nil_r in *. exact H.
Qed.

Lemma view_filter k tr :
  view k (run tr) = view k (run (filter (λ ev, keyOf ev = k) tr)).
Proof.
  induction tr as [|ev tr IH] using rev_ind; [done|].
  rewrite filter_app, filter_cons, filter_nil.
  destruct (decide (keyOf ev = k)) as [Hk|Hk].
  - rewrite !run_snoc. by apply view_step_same.
  - rewrite app_nil_r, run_snoc. by rewrite view_step_other.
Qed.

Lemma unsettled_nil_idle q k : busy q → unsettled k q = [] → lanes q !! k = None.
Proof.
  unfold unsettled. intros Hb Hu.
  destruct (lanes q !! k) as [lane|] eqn:Hl; [|done].
  by destruct (Hb _ _ Hl) as [_ Hne].
Qed.

Lemma settle_head q k x l o :
  busy q → unsettled k q = x :: l →
  unsettled k (settle k o q) = l ∧
  on k (settled (settle k o q)) = on k (settled q) ++ [(x, o)].
Proof.
  unfold unsettled, settle. intros Hb Hu.
  destruct (lanes q !! k) as [[s e]|] eqn:Hl; [|done].
  destruct (Hb _ _ Hl) as [He _]. simpl in *. subst s e.
  destruct l as [|y l]; simpl.
  - by rewrite lookup_delete_eq, on_snoc, decide_True.
  - unfold process. simpl. rewrite lookup_insert_eq. simpl.
    by rewrite lookup_insert_eq, on_snoc, decide_True.
Qed.

(** Once the remote calls come back, the pending actions of a lane
    settle one after the other, each with its own outcome. *)
Lemma drain k (l : list A) : ∀ q (os : nat → O),
  busy q → unsettled k q = l →
  let q' := foldl step q (imap (λ i _, Done k (os i)) l) in
  on k (settled q') = on k (settled q) ++ imap (λ i a, (a, os i)) l
  ∧ lanes q' !! k = None.
Proof.
  induction l as [|x l IH]; intros q os Hb Hu; simpl.
  - rewrite app_nil_r. split; [done|]. by apply unsettled_nil_idle.
  - destruct (settle_head q k x l (os 0%nat) Hb Hu) as [Hu' Hs'].
    pose proof (busy_step q (Done k (os 0%nat)) Hb) as Hb'.
    destruct (IH (settle k (os 0%nat) q) (os ∘ S) Hb' Hu') as [H1 H2].
    simpl in *. split; [|exact H2].
    etrans; [exact H1|]. by rewrite Hs', <- app_assoc.
Qed.

End Facts.
End QueueFacts.

(** ** The task item: what its handlers write and emit *)

Module ItemFacts.
Import Js Api TaskItem App.

#[local] Ltac run_handler :=
  cbv [handleToggleCompletion handleEditStart handleEditCancel handleEditSave
       handleDelete onChange onDeleteClick onDeleteCancel
       resumeToggleCompletion resumeEditSave resumeDelete
       setIsEditing setTitle setIsCompleted setShowDeleteConfirm setIsUpdating
       perform mbind mret Handler_bind Handler_ret];
  cbn.

(** A busy item starts nothing: the three async handlers leave the
    [isUpdating] cell alone and return without suspending. *)
Lemma busy_handlers task s :
  isUpdating s = true →
  (∃ s', handleToggleCompletion task s s = (None, s', []) ∧ s' = s)
  ∧ (∃ s', handleEditSave task s s = (None, s', []) ∧ isUpdating s' = true)
  ∧ (∃ s', handleDelete task s s = (None, s', []) ∧ s' = s).
Proof.
  intros Hu. run_handler. rewrite Hu. cbn.
  repeat split; eexists; (split; [reflexivity|done]).
Qed.

(** An idle item suspends at most once per invocation, and when it does
    it has set [isUpdating] and enqueued exactly one action. *)
Lemma async_handlers task s h :
  h = handleToggleCompletion ∨ h = handleEditSave ∨ h = handleDelete →
  ∃ k s' es, h task s s = (k, s', es) ∧
    match k with
    | None => es = [] ∧ isUpdating s' = isUpdating s
    | Some _ => isUpdating s = false ∧ isUpdating s' = true
                ∧ ∃ key a, es = [Enqueue key a]
    end.
Proof.
  intros [-> | [-> | ->]]; run_handler;
    destruct (isUpdating s) eqn:Hu; cbn;
    try destruct (String.eqb (trim (title s)) ""); cbn;
    do 3 eexists; (split; [reflexivity|]); cbn; repeat split;
    try done; by do 2 eexists.
Qed.

(** The synchronous handlers do not touch [isUpdating] and emit nothing. *)
Lemma sync_handlers task s value :
  (∃ s', handleEditStart task s = (tt, s', []) ∧ isUpdating s' = isUpdating s)
  ∧ (∃ s', handleEditCancel task s = (tt, s', []) ∧ isUpdating s' = isUpdating s)
  ∧ (∃ s', onChange value s = (tt, s', []) ∧ isUpdating s' = isUpdating s)
  ∧ (∃ s', onDeleteClick s s = (tt, s', []) ∧ isUpdating s' = isUpdating s)
  ∧ (∃ s', onDeleteCancel s = (tt, s', []) ∧ isUpdating s' = isUpdating s).
Proof.
  run_handler. destruct s as [e t c d [|]]; cbn;
    repeat split; eexists; (split; reflexivity).
Qed.

(** No continuation enqueues anything. *)
Lemma continuations_enqueue_nothing :
  (∀ p o s, enqueues (resumeToggleCompletion p o s).2 = [])
  ∧ (∀ t o s, enqueues (resumeEditSave t o s).2 = [])
  ∧ (∀ t o s, enqueues (resumeDelete t o s).2 = []).
Proof.
  repeat split; intros ? [?|?] ?; reflexivity.
Qed.

(** A template literal with a fixed head is injective in its hole. *)
Lemma append_cancel (head a b : string) : head +:+ a = head +:+ b → a = b.
Proof.
  induction head as [|c head IH]; simpl; [done|]. intros [= H]. by apply IH.
Qed.

End ItemFacts.

(** ** The task item on the page: invariants of every run *)

Module AppFacts.
Import Js Api TaskItem App ItemFacts.

Lemma app_run_snoc w evs ev : run w (evs ++ [ev]) = step (run w evs) ev.
Proof. unfold run. by rewrite foldl_app. Qed.

(** Establish, preserve, use. *)
Lemma run_invariant (P : World → Prop) w :
  P w → (∀ w' ev, P w' → P (step w' ev)) → ∀ evs, P (run w evs).
Proof.
  intros H0 Hstep evs. induction evs as [|ev evs IH] using rev_ind; [done|].
  rewrite app_run_snoc. by apply Hstep.
Qed.

Lemma enqueues_app es1 es2 : enqueues (es1 ++ es2) = enqueues es1 ++ enqueues es2.
Proof. apply List.filter_app. Qed.

Lemma fireAsync_spec h w :
  h = handleToggleCompletion ∨ h = handleEditSave ∨ h = handleDelete →
  fireAsync h w = w ∨
  ∃ task k s' es,
    props w = Some task ∧ h task (item w) (item w) = (k, s', es) ∧
    fireAsync h w = commit w s' es (suspended w ++ option_list k) ∧
    match k with
    | None => es = [] ∧ isUpdating s' = isUpdating (item w)
    | Some _ => isUpdating (item w) = false ∧ isUpdating s' = true
                ∧ ∃ key a, es = [Enqueue key a]
    end.
Proof.
  intros Hh. unfold fireAsync. destruct (props w) as [task|]; [|by left].
  destruct (async_handlers task (item w) h Hh) as (k & s' & es & Heq & Hk).
  right. exists task, k, s', es. by rewrite Heq.
Qed.

Lemma fire_spec w ev :
  match ev with
  | Toggle | EditSave | Delete | Settle _ _ => True
  | _ => step w ev = w ∨
         ∃ s', step w ev = commit w s' [] (suspended w)
               ∧ isUpdating s' = isUpdating (item w)
  end.
Proof.
  destruct ev as [| | |value| | | | |i o]; try done; simpl; unfold fire;
    (destruct (props w) as [task|]; [right|by left]).
  - destruct (sync_handlers task (item w) "") as ((s' & -> & ?) & _). eauto.
  - destruct (sync_handlers task (item w) "") as (_ & (s' & -> & ?) & _). eauto.
  - destruct (sync_handlers task (item w) value)
      as (_ & _ & (s' & -> & ?) & _). eauto.
  - destruct (sync_handlers task (item w) "")
      as (_ & _ & _ & (s' & -> & ?) & _). eauto.
  - destruct (sync_handlers task (item w) "")
      as (_ & _ & _ & _ & (s' & -> & ?)). eauto.
Qed.

Lemma resume_spec i o w :
  resume i o w = w ∨
  ∃ k s' es, suspended w !! i = Some k ∧
             resume i o w = commit w s' es (delete i (suspended w)) ∧
             enqueues es = [].
Proof.
  unfold resume. destruct (suspended w !! i) as [k|] eqn:Hk; [|by left].
  destruct continuations_enqueue_nothing as (Ht & He & Hd).
  destruct k as [p|t|t], o as [[u|]|e]; try (by left); right.
  - specialize (Ht p (Fulfilled u) (item w)).
    destruct (resumeToggleCompletion _ _ _) as [[[] s'] es]. eauto 10.
  - specialize (Ht p (Rejected e) (item w)).
    destruct (resumeToggleCompletion _ _ _) as [[[] s'] es]. eauto 10.
  - specialize (He t (Fulfilled u) (item w)).
    destruct (resumeEditSave _ _ _) as [[[] s'] es]. eauto 10.
  - specialize (He t (Rejected e) (item w)).
    destruct (resumeEditSave _ _ _) as [[[] s'] es]. eauto 10.
  - specialize (Hd t (Fulfilled tt) (item w)).
    destruct (resumeDelete _ _ _) as [[[] s'] es]. eauto 10.
  - specialize (Hd t (Rejected e) (item w)).
    destruct (resumeDelete _ _ _) as [[[] s'] es]. eauto 10.
Qed.

Lemma async_event ev :
  ev = Toggle ∨ ev = EditSave ∨ ev = Delete →
  ∃ h, (h = handleToggleCompletion ∨ h = handleEditSave ∨ h = handleDelete)
       ∧ ∀ w, step w ev = fireAsync h w.
Proof.
  intros [-> | [-> | ->]];
    [exists handleToggleCompletion | exists handleEditSave
     | exists handleDelete]; split; auto.
Qed.

Lemma guarded_async h w :
  h = handleToggleCompletion ∨ h = handleEditSave ∨ h = handleDelete →
  guarded w → guarded (fireAsync h w).
Proof.
  intros Hh [Hlen Hbusy].
  destruct (fireAsync_spec h w Hh)
    as [-> | (task & k & s' & es & _ & _ & -> & Hk)]; [by split|].
  destruct k as [k|]; simpl in *.
  - destruct Hk as (Hidle & Hset & _).
    assert (suspended w = []) as ->.
    { destruct (suspended w); [done|]. rewrite Hbusy in Hidle; done. }
    by split.
  - destruct Hk as [_ Hsame]. rewrite app_nil_r.
    split; simpl; [done | by rewrite Hsame].
Qed.

Lemma guarded_sync w ev :
  (step w ev = w ∨
   ∃ s', step w ev = commit w s' [] (suspended w)
         ∧ isUpdating s' = isUpdating (item w)) →
  guarded w → guarded (step w ev).
Proof.
  intros [-> | (s' & -> & Hsame)] [Hlen Hbusy]; [by split|].
  split; simpl; [done | by rewrite Hsame].
Qed.

Lemma guarded_resume i o w : guarded w → guarded (resume i o w).
Proof.
  intros [Hlen Hbusy].
  destruct (resume_spec i o w) as [-> | (k & s' & es & Hk & -> & _)];
    [by split|].
  apply lookup_lt_Some in Hk.
  assert (length (delete i (suspended w)) = 0%nat) as Hnil
    by (rewrite length_delete by eauto using lookup_lt_is_Some_2; lia).
  apply nil_length_inv in Hnil.
  split; simpl; rewrite Hnil; [simpl; lia | done].
Qed.

Lemma guarded_step w ev : guarded w → guarded (step w ev).
Proof.
  intros Hg. destruct ev as [| | |value| | | | |i o].
  - apply guarded_async; auto.
  - apply guarded_sync, Hg. apply (fire_spec w EditStart).
  - apply guarded_sync, Hg. apply (fire_spec w EditCancel).
  - apply guarded_sync, Hg. apply (fire_spec w (Change value)).
  - apply guarded_async; auto.
  - apply guarded_sync, Hg. apply (fire_spec w DeleteClick).
  - apply guarded_sync, Hg. apply (fire_spec w DeleteCancel).
  - apply guarded_async; auto.
  - by apply guarded_resume.
Qed.

Lemma guarded_boot ts task : guarded (boot ts task).
Proof. split; simpl; [lia|done]. Qed.

Lemma guarded_run ts task evs : guarded (run (boot ts task) evs).
Proof. apply run_invariant; [apply guarded_boot | apply guarded_step]. Qed.

(** A busy item hands nothing to the queue, whatever happens. *)
Lemma busy_async h w :
  h = handleToggleCompletion ∨ h = handleEditSave ∨ h = handleDelete →
  isUpdating (item w) = true →
  enqueues (history (fireAsync h w)) = enqueues (history w)
  ∧ suspended (fireAsync h w) = suspended w.
Proof.
  intros Hh Hu.
  destruct (fireAsync_spec h w Hh)
    as [-> | (task & k & s' & es & _ & _ & -> & Hk)]; [done|].
  destruct k as [k|].
  - destruct Hk as (Hidle & _). congruence.
  - destruct Hk as [-> _]. simpl. by rewrite !app_nil_r.
Qed.

Lemma busy_step_enqueues w ev :
  isUpdating (item w) = true →
  enqueues (history (step w ev)) = enqueues (history w).
Proof.
  intros Hu. destruct ev as [| | |value| | | | |i o].
  1, 5, 8: by apply busy_async; auto.
  6: { simpl.
       destruct (resume_spec i o w) as [-> | (k & s' & es & _ & -> & He)];
         [done|]. simpl. by rewrite enqueues_app, He, app_nil_r. }
  all: match goal with
       | |- context [step ?w0 ?e] =>
           destruct (fire_spec w0 e) as [-> | (s' & -> & _)];
           [done | simpl; by rewrite app_nil_r]
       end.
Qed.

(** The parent's update replaces the entries that carry the id of the
    returned task, and only those. *)
Lemma handleTaskUpdated_lookup u ts j t :
  ts !! j = Some t →
  Page.handleTaskUpdated u ts !! j = Some (if decide (id t = id u) then u else t).
Proof.
  intros Hj. unfold Page.handleTaskUpdated. by rewrite list_lookup_fmap, Hj.
Qed.

Lemma handleTaskUpdated_ids u ts : id <$> Page.handleTaskUpdated u ts = id <$> ts.
Proof.
  unfold Page.handleTaskUpdated. rewrite <- list_fmap_compose.
  apply list_fmap_ext. intros _ t _. simpl. by case_decide.
Qed.

Lemma handleTaskUpdated_keyed u ts :
  head (filter (λ t, id t = id u) (Page.handleTaskUpdated u ts))
  = const u <$> head (filter (λ t, id t = id u) ts).
Proof.
  unfold Page.handleTaskUpdated.
  induction ts as [|t ts IH]; [done|].
  rewrite fmap_cons, !filter_cons.
  destruct (decide (id t = id u)) as [Heq|Hne].
  - by rewrite decide_True.
  - by rewrite decide_False.
Qed.

Lemma handleTaskDeleted_gone taskId ts :
  ∀ t, t ∈ Page.handleTaskDeleted taskId ts ↔ t ∈ ts ∧ id t ≠ taskId.
Proof.
  intros t. unfold Page.handleTaskDeleted. rewrite list_elem_of_filter. tauto.
Qed.

End AppFacts.

(* ===================================================================== *)
(** * The claims of the specification *)
(* ===================================================================== *)

Module QueueSpec.
Import RequestQueue QueueFacts.

Section Order.
Context {A O : Type}.

(** C1. For every sequence of operations enqueued under one key, the
    operations settle in exactly their enqueue order, whatever the latency
    of each: at every instant of every run (any interleaving of enqueues
    and completions, on any keys) the actions of key [k] settled so far,
    followed by the ones not yet settled, are the enqueued ones in enqueue
    order; the lane has started exactly the settled actions plus at most
    the first unsettled one, so it never starts an action before the
    previous one has settled, by success or by failure; and when the
    remote calls come back, with whatever outcomes, every pending action
    settles, in that order, and the lane is gone. *)
Theorem queue_settles_in_enqueue_order (tr : list (Event A O)) (k : string) :
  let q := run tr in
  (on k (settled q)).*1 ++ unsettled k q = on k (enqueued tr)
  ∧ on k (started q) = (on k (settled q)).*1 ++ take 1 (unsettled k q)
  ∧ ∀ os : nat → O,
      let q' := foldl step q (imap (λ i _, Done k (os i)) (unsettled k q)) in
      (on k (settled q')).*1 = on k (enqueued tr)
      ∧ on k (settled q') =
          on k (settled q) ++ imap (λ i a, (a, os i)) (unsettled k q)
      ∧ lanes q' !! k = None.
Proof.
  intros q. destruct (lane_inv_run k tr) as [Ho Hs]. fold q in Ho, Hs.
  pose proof (busy_run tr) as Hb. fold q in Hb.
  split; [exact Ho|]. split; [by rewrite Hs, busy_inFlight|].
  intros os q'.
  destruct (drain k (unsettled k q) q os Hb eq_refl) as [Hd Hl].
  fold q' in Hd, Hl. split; [|by split].
  rewrite Hd, fmap_app, <- Ho. f_equal.
  generalize (unsettled k q) os. clear.
  induction l as [|x l IH]; intros os; simpl; [done|].
  f_equal. apply IH.
Qed.

End Order.

(** The test of the specification: under one key, a toggle whose remote
    call is slow and a rename whose remote call is fast. The rename cannot
    even start before the toggle has settled. *)
Example slow_toggle_then_fast_rename :
  let tr := [Enq "task-42" "toggle"; Enq "task-42" "rename"] in
  started (run (O:=bool) tr) = [("task-42", "toggle")]
  ∧ settled (run (tr ++ [Done "task-42" false; Done "task-42" true]))
    = [("task-42", ("toggle", false)); ("task-42", ("rename", true))].
Proof. split; reflexivity. Qed.

Lemma queue_settles_in_enqueue_order_witness :
  let tr := [Enq "toggle-42" "first"; Enq "edit-42" "rename";
             Enq "toggle-42" "second"; Done "edit-42" true] in
  (on "toggle-42"
      (settled (foldl step (run tr)
                  [Done "toggle-42" false; Done "toggle-42" true]))).*1
  = ["first"; "second"].
Proof.
  intros tr.
  destruct (queue_settles_in_enqueue_order tr "toggle-42") as (_ & _ & H).
  destruct (H (λ i, match i with 0%nat => false | _ => true end)) as [H1 _].
  exact H1.
Defined.

End QueueSpec.

Module ItemSpec.
Import Js Api TaskItem TaskItemView App ItemFacts AppFacts Sample Sample2.

(** C2. For every task item whose check box shows [b], invoking the
    toggle handler shows [not b] at once, before the queued remote call
    settles: the handler is suspended on the call it has just handed to the
    queue under the toggle key. If that call fails, the continuation puts
    [b] back, whatever happened to the other cells in between, and
    notifies no one. The handler is invoked by the check box alone, which
    is disabled while [isUpdating] is set; the hypothesis says that the
    check box can be clicked. *)
Theorem toggle_is_optimistic_and_rolls_back (task : Task) (s : State) :
  toggleDisabled s = false →
  ∃ s1,
    handleToggleCompletion task s s =
      (Some (AwaitToggle (shownCompleted s)), s1,
       [Enqueue (toggleKey task)
          (UpdateTask (id task)
             (mkPartial None (Some (negb (shownCompleted s)))))])
    ∧ shownCompleted s1 = negb (shownCompleted s)
    ∧ ∀ (s2 : State) (error : Exn),
        ∃ s3,
          resumeToggleCompletion (shownCompleted s) (Rejected error) s2 =
            (tt, s3, [ConsoleError "Failed to update task completion:" error])
          ∧ shownCompleted s3 = shownCompleted s.
Proof.
  unfold toggleDisabled. intros Hidle. unfold handleToggleCompletion.
  rewrite Hidle.
  eexists. split; [reflexivity|]. split; [reflexivity|].
  intros s2 error. eexists. split; reflexivity.
Qed.

Lemma toggle_is_optimistic_witness :
  toggleDisabled (mount milk) = false
  ∧ shownCompleted (handleToggleCompletion milk (mount milk) (mount milk)).1.2
    = true.
Proof.
  split; [reflexivity|].
  destruct (toggle_is_optimistic_and_rolls_back milk (mount milk) eq_refl)
    as (s1 & Heq & Hshown & _).
  rewrite Heq. exact Hshown.
Defined.

(** The guard at the head of the handler repeats the check box's
    [disabled]: called while the rename of [milk] is in flight, which a
    click cannot do, the handler changes nothing. *)
Example toggle_while_busy_shows_no_change :
  props renaming = Some milk
  ∧ toggleDisabled (item renaming) = true
  ∧ step renaming Toggle = renaming.
Proof. repeat split; reflexivity. Qed.

(** C3, amended. Whenever a queued toggle or rename succeeds, the
    surrounding component is notified with exactly the entity the remote
    call returned, and that entity replaces the entity's entry in the
    page's list, which is the [task] prop of its item. Of the item's own
    cells, a successful toggle sets the check box to the returned
    entity's [is_completed] and leaves the title cell and the edit mode
    alone; a successful rename leaves edit mode, so that the title shown is
    the returned entity's, but does not refresh the check box: that keeps
    the value of the [isCompleted] cell, whatever the returned entity
    says. Here [w] is any state of the page and [i] the suspended
    invocation whose promise is fulfilled with [updatedTask]. *)
Theorem success_installs_returned_entity
    (w : World) (i : nat) (k : Suspended) (updatedTask : Task) :
  suspended w !! i = Some k →
  awaitsTask k = true →
  let w' := step w (Settle i (Fulfilled (Some updatedTask))) in
  history w' = history w ++ [OnTaskUpdated updatedTask]
  ∧ tasks w' = Page.handleTaskUpdated updatedTask (tasks w)
  ∧ (∀ j t, tasks w !! j = Some t → id t = id updatedTask →
            tasks w' !! j = Some updatedTask)
  ∧ item w'
    = match k with
      | AwaitToggle _ =>
          mkState (isEditing (item w)) (title (item w))
                  (is_completed updatedTask)
                  (showDeleteConfirm (item w)) false
      | _ =>
          mkState false (title (item w)) (isCompleted (item w))
                  (showDeleteConfirm (item w)) false
      end
  ∧ (is_Some (props w) → id updatedTask = key w →
     props w' = Some updatedTask
     ∧ shown w'
       = Some match k with
              | AwaitToggle _ =>
                  (shownTitle updatedTask (item w), is_completed updatedTask)
              | _ => (Api.title updatedTask, shownCompleted (item w))
              end)
  ∧ suspended w' = delete i (suspended w).
Proof.
  intros Hk Hkind w'. subst w'. simpl. unfold resume. rewrite Hk.
  assert (is_Some (props w) → id updatedTask = key w →
          head (filter (λ task, id task = key w)
                  (Page.handleTaskUpdated updatedTask (tasks w)))
          = Some updatedTask) as Hprops.
  { intros [t Ht] Hid. unfold props in Ht. rewrite <- Hid in *.
    by rewrite handleTaskUpdated_keyed, Ht. }
  assert (∀ j t, tasks w !! j = Some t → id t = id updatedTask →
            Page.handleTaskUpdated updatedTask (tasks w) !! j
            = Some updatedTask) as Hentry.
  { intros j t Hj Hid.
    rewrite (handleTaskUpdated_lookup _ _ _ _ Hj). by rewrite decide_True. }
  destruct k as [p|t|t]; [| |done].
  - split_and!; try done.
    intros Hm Hid. unfold shown, props. simpl.
    rewrite (Hprops Hm Hid). done.
  - split_and!; try done.
    intros Hm Hid. unfold shown, props. simpl.
    rewrite (Hprops Hm Hid). done.
Qed.

Lemma success_installs_returned_entity_witness :
  shown (step toggling (Settle 0 (Fulfilled (Some milkDone))))
  = Some ("Buy oat milk", true)
  ∧ shown (step renaming (Settle 0 (Fulfilled (Some milkRenamed))))
    = Some ("Buy oat milk", false).
Proof.
  split.
  - destruct (success_installs_returned_entity toggling 0 (AwaitToggle false)
                milkDone eq_refl eq_refl) as (_ & _ & _ & _ & Hshown & _).
    destruct Hshown as [_ Hshown]; [by eexists | reflexivity |].
    exact Hshown.
  - destruct (success_installs_returned_entity renaming 0 (AwaitEdit milk)
                milkRenamed eq_refl eq_refl) as (_ & _ & _ & _ & Hshown & _).
    destruct Hshown as [_ Hshown]; [by eexists | reflexivity |].
    exact Hshown.
Defined.

(** C3 as stated fails: the rename of [milk] succeeds and the remote call
    returns the entity with [is_completed] true; the page's list and the
    item's [task] prop hold the returned entity, but the check box of the
    item still shows [false]: the UI state is not the returned entity. *)
Lemma rename_success_leaves_check_box_stale :
  let w' := step renaming (Settle 0 (Fulfilled (Some milkRenamed))) in
  suspended renaming !! 0%nat = Some (AwaitEdit milk)
  ∧ props w' = Some milkRenamed
  ∧ is_completed milkRenamed = true
  ∧ shown w' = Some ("Buy oat milk", false)
  ∧ shown w' ≠ Some (Api.title milkRenamed, is_completed milkRenamed).
Proof. repeat split; try reflexivity. vm_compute. discriminate. Qed.

(** C4. For every rename invocation whose input title is empty or
    whitespace-only after trimming, the handler performs no remote call and
    enqueues nothing (it emits no effect at all, so no error is shown or
    logged either and no invocation stays suspended), and the title cell
    goes back to the original task title; the only other cell written is
    [isEditing]. *)
Theorem blank_rename_is_a_local_no_op (task : Task) (s : State) :
  trim (title s) = "" →
  handleEditSave task s s =
    (None,
     mkState false (Api.title task) (isCompleted s) (showDeleteConfirm s)
             (isUpdating s),
     []).
Proof.
  intros Hblank. unfold handleEditSave. rewrite Hblank.
  replace (isUpdating s || ("" =? "")%string) with true
    by (by destruct (isUpdating s)).
  reflexivity.
Qed.

Lemma blank_rename_is_a_local_no_op_witness :
  let s := mkState true "  " false false false in
  trim (title s) = ""
  ∧ handleEditSave milk s s = (None, mount milk, []).
Proof.
  split; [reflexivity|].
  exact (blank_rename_is_a_local_no_op milk
           (mkState true "  " false false false) eq_refl).
Defined.

(** C10. Every completed invocation of the rename-save handler leaves the
    component out of editing mode. The invocation either returns early
    (exactly when another operation is in flight or the trimmed title is
    empty), with [isEditing] false and the title cell reset to the original
    task title; or it suspends on the queued call, and then its
    continuation ends with [isEditing] false on success and on failure
    alike, and on failure with the title cell reset to the original task
    title. *)
Theorem rename_save_leaves_editing_mode (task : Task) (s : State) :
  match handleEditSave task s s with
  | (None, s', _) =>
      (isUpdating s = true ∨ trim (title s) = "")
      ∧ isEditing s' = false ∧ title s' = Api.title task
  | (Some k, _, _) =>
      isUpdating s = false ∧ trim (title s) ≠ ""
      ∧ k = AwaitEdit task
      ∧ ∀ (s2 : State) (settled : Settled Task),
          let s3 := (resumeEditSave task settled s2).1.2 in
          isEditing s3 = false
          ∧ match settled with
            | Fulfilled _ => True
            | Rejected _ => title s3 = Api.title task
            end
  end.
Proof.
  unfold handleEditSave.
  destruct (isUpdating s) eqn:Hu; cbn.
  - repeat split; auto.
  - destruct (String.eqb_spec (trim (title s)) "") as [Hblank|Hfull]; cbn.
    + repeat split; auto.
    + repeat split; auto. all: by destruct settled.
Qed.

Lemma rename_save_leaves_editing_mode_witness :
  isEditing (item (step renaming (Settle 0 (Rejected networkDown)))) = false
  ∧ title (item (step renaming (Settle 0 (Rejected networkDown)))) = "Buy milk".
Proof.
  pose proof (rename_save_leaves_editing_mode milk
                (mkState true "Buy oat milk" false false false))
    as (_ & _ & _ & H).
  destruct (H (item renaming) (Rejected networkDown)) as [H1 H2].
  split; [exact H1 | exact H2].
Defined.

(** C5. The delete operation removes the task from the visible list only
    after the remote delete call has succeeded: no event other than the
    success of a remote delete changes which tasks are listed; invoking
    the delete handler leaves the list as it is; a failed remote call
    leaves the list as it is; and the success of the remote delete of
    [task] removes exactly the entries with its id. *)
Theorem delete_waits_for_confirmation (w : World) :
  (∀ ev, confirmsDelete w ev = false →
         id <$> tasks (step w ev) = id <$> tasks w)
  ∧ tasks (step w Delete) = tasks w
  ∧ (∀ i error, tasks (step w (Settle i (Rejected error))) = tasks w)
  ∧ (∀ i task, suspended w !! i = Some (AwaitDelete task) →
       let w' := step w (Settle i (Fulfilled None)) in
       tasks w' = filter (λ t, id t ≠ id task) (tasks w)
       ∧ ∀ t, t ∈ tasks w' ↔ t ∈ tasks w ∧ id t ≠ id task).
Proof.
  assert (∀ h, h = handleToggleCompletion ∨ h = handleEditSave ∨ h = handleDelete →
               tasks (fireAsync h w) = tasks w) as Hasync.
  { intros h Hh.
    destruct (fireAsync_spec h w Hh)
      as [-> | (task & k & s' & es & _ & _ & -> & Hk)]; [done|].
    destruct k as [k|].
    - by destruct Hk as (_ & _ & key & a & ->).
    - by destruct Hk as [-> _]. }
  assert (∀ i error, tasks (step w (Settle i (Rejected error))) = tasks w)
    as Hrejected.
  { intros i error. simpl. unfold resume.
    destruct (suspended w !! i) as [[p|t|t]|]; reflexivity. }
  split; [|split; [by apply Hasync; auto|split; [exact Hrejected|]]].
  - intros ev Hev. destruct ev as [| | |value| | | | |i [[u|]|error]].
    1, 5, 8: simpl; by rewrite Hasync by auto.
    1-5: match goal with
         | |- context [step ?w0 ?e] =>
             by destruct (fire_spec w0 e) as [-> | (s' & -> & _)]
         end.
    + simpl. unfold resume.
      destruct (suspended w !! i) as [[p|t|t]|]; try reflexivity;
        simpl; apply handleTaskUpdated_ids.
    + simpl in *. unfold resume.
      destruct (suspended w !! i) as [[p|t|t]|]; try reflexivity. done.
    + by rewrite Hrejected.
  - intros i task Hi w'. subst w'. simpl. unfold resume. rewrite Hi.
    split; [reflexivity|]. apply handleTaskDeleted_gone.
Qed.

Lemma delete_waits_for_confirmation_witness :
  tasks (step deleting (Settle 0 (Fulfilled None))) = [bread]
  ∧ tasks (step deleting (Settle 0 (Rejected networkDown))) = [bread; milk].
Proof.
  destruct (delete_waits_for_confirmation deleting) as (_ & _ & Hfail & Hok).
  split.
  - destruct (Hok 0%nat milk eq_refl) as [-> _]. reflexivity.
  - rewrite Hfail. reflexivity.
Defined.

(** C6. At any instant at most one remote operation initiated from an
    entity's task item is in flight: after any sequence of handler
    invocations and settlements, starting from the freshly rendered page,
    the item has at most one operation handed to the queue and not yet
    settled; and while one is in flight no event makes the item enqueue
    anything, and a user action leaves the suspended invocation as it is
    (the action is ignored). *)
Theorem at_most_one_operation_in_flight
    (ts : list Task) (task : Task) (evs : list Event) :
  let w := run (boot ts task) evs in
  (inFlight w ≤ 1)%nat
  ∧ ∀ ev, inFlight w = 1%nat →
      enqueues (history (step w ev)) = enqueues (history w)
      ∧ (inFlight (step w ev) ≤ 1)%nat
      ∧ (ev = Toggle ∨ ev = EditSave ∨ ev = Delete →
         suspended (step w ev) = suspended w).
Proof.
  intros w. pose proof (guarded_run ts task evs) as Hg. fold w in Hg.
  split; [apply Hg|]. intros ev Hone.
  assert (isUpdating (item w) = true) as Hu.
  { apply Hg. unfold inFlight in Hone. by destruct (suspended w). }
  split; [by apply busy_step_enqueues|].
  split; [apply (guarded_step w ev Hg)|].
  intros Hev. destruct (async_event ev Hev) as (h & Hh & ->).
  by apply busy_async.
Qed.

Lemma at_most_one_operation_in_flight_witness :
  inFlight toggling = 1%nat
  ∧ enqueues (history (step toggling EditSave)) = enqueues (history toggling)
  ∧ suspended (step toggling Delete) = suspended toggling.
Proof.
  destruct (at_most_one_operation_in_flight [bread; milk] milk
              [Toggle; EditStart; Change "Buy oat milk"]) as [_ H].
  split; [reflexivity|]. split.
  - apply (H EditSave). reflexivity.
  - apply (H Delete); [reflexivity | auto].
Defined.

(** The three key literals: the prefixes keep the kinds apart and the
    decimal form of the id keeps the entities apart. *)
Lemma key_literals (t1 t2 : Task) :
  toggleKey t1 ≠ editKey t2
  ∧ toggleKey t1 ≠ deleteKey t2
  ∧ editKey t1 ≠ deleteKey t2
  ∧ (toggleKey t1 = toggleKey t2 ↔ id t1 = id t2)
  ∧ (editKey t1 = editKey t2 ↔ id t1 = id t2)
  ∧ (deleteKey t1 = deleteKey t2 ↔ id t1 = id t2).
Proof.
  unfold toggleKey, editKey, deleteKey.
  repeat split; try discriminate; try (by intros ->).
  all: intros H; apply append_cancel in H; by apply (inj pretty) in H.
Qed.

(** What the three handlers hand to the queue when they get past their
    guards. *)
Lemma handlers_enqueue (task : Task) (s : State) :
  isUpdating s = false →
  keysOf (handleToggleCompletion task s s).2 = [toggleKey task]
  ∧ keysOf (handleDelete task s s).2 = [deleteKey task]
  ∧ (trim (title s) ≠ "" →
     keysOf (handleEditSave task s s).2 = [editKey task]).
Proof.
  intros Hidle.
  unfold handleToggleCompletion, handleDelete, handleEditSave.
  rewrite Hidle. split; [done|]. split; [done|].
  intros Hfull. apply String.eqb_neq in Hfull. by rewrite Hfull.
Qed.

(** C8. The key under which each mutation is enqueued identifies the pair
    of entity and mutation kind. Take the toggle, rename and delete
    handlers of two task items, each invoked in a state in which it gets
    past its guards (nothing in flight, and a title that is not blank for
    the rename). Each handler makes exactly one [enqueue] call; the three
    keys used for one entity are pairwise distinct; a key of one kind never
    equals a key of another kind, also across entities; and two keys of the
    same kind are equal exactly when the entities have the same id,
    whatever the states of the two invocations. *)
Theorem keys_identify_entity_and_kind (t1 t2 : Task) (s1 s2 : State) :
  isUpdating s1 = false → trim (title s1) ≠ "" →
  isUpdating s2 = false → trim (title s2) ≠ "" →
  ∃ toggle1 edit1 delete1 toggle2 edit2 delete2,
    (keysOf (handleToggleCompletion t1 s1 s1).2 = [toggle1]
     ∧ keysOf (handleEditSave t1 s1 s1).2 = [edit1]
     ∧ keysOf (handleDelete t1 s1 s1).2 = [delete1])
    ∧ (keysOf (handleToggleCompletion t2 s2 s2).2 = [toggle2]
       ∧ keysOf (handleEditSave t2 s2 s2).2 = [edit2]
       ∧ keysOf (handleDelete t2 s2 s2).2 = [delete2])
    ∧ (toggle1 ≠ edit1 ∧ toggle1 ≠ delete1 ∧ edit1 ≠ delete1)
    ∧ (toggle1 ≠ edit2 ∧ toggle1 ≠ delete2 ∧ edit1 ≠ toggle2
       ∧ edit1 ≠ delete2 ∧ delete1 ≠ toggle2 ∧ delete1 ≠ edit2)
    ∧ (toggle1 = toggle2 ↔ id t1 = id t2)
    ∧ (edit1 = edit2 ↔ id t1 = id t2)
    ∧ (delete1 = delete2 ↔ id t1 = id t2).
Proof.
  intros Hidle1 Hfull1 Hidle2 Hfull2.
  destruct (handlers_enqueue t1 s1 Hidle1) as (Ht1 & Hd1 & He1).
  destruct (handlers_enqueue t2 s2 Hidle2) as (Ht2 & Hd2 & He2).
  exists (toggleKey t1), (editKey t1), (deleteKey t1),
         (toggleKey t2), (editKey t2), (deleteKey t2).
  destruct (key_literals t1 t1) as (A1 & A2 & A3 & _).
  destruct (key_literals t1 t2) as (B1 & B2 & B3 & B4 & B5 & B6).
  destruct (key_literals t2 t1) as (C1 & C2 & C3 & _).
  split_and!; auto.
Qed.

Lemma keys_identify_entity_and_kind_witness :
  keysOf (handleToggleCompletion milk (mount milk) (mount milk)).2 = ["toggle-42"]
  ∧ keysOf (handleEditSave milk (mount milk) (mount milk)).2 = ["edit-42"]
  ∧ keysOf (handleDelete milk (mount milk) (mount milk)).2 = ["delete-42"]
  ∧ keysOf (handleToggleCompletion bread (mount bread) (mount bread)).2
    ≠ keysOf (handleToggleCompletion milk (mount milk) (mount milk)).2.
Proof.
  destruct (keys_identify_entity_and_kind milk bread (mount milk) (mount bread)
              eq_refl ltac:(done) eq_refl ltac:(done))
    as (k1 & k2 & k3 & k4 & k5 & k6 & (H1 & H2 & H3) & (H4 & _) & _ & _
        & Hsame & _).
  split; [reflexivity|]. split; [reflexivity|]. split; [reflexivity|].
  rewrite H1, H4. intros [= Heq]. symmetry in Heq.
  apply Hsame in Heq. discriminate.
Defined.

Example keys_of_milk :
  toggleKey milk = "toggle-42" ∧ editKey milk = "edit-42"
  ∧ deleteKey milk = "delete-42" ∧ toggleKey bread = "toggle-7".
Proof. repeat split; reflexivity. Qed.

End ItemSpec.

Module IndependenceSpec.
Import Js Api TaskItem TaskItemView App ItemFacts AppFacts Sample Wiring.
Import RequestQueue QueueFacts.

(** C7, amended. Enqueueing an operation for one key never blocks on, or
    waits for, a pending operation under a different key: what the queue
    holds about a key (its lane, the actions it started and the ones it
    settled) is what it would hold if the events of all other keys had
    never happened, and an action enqueued on an idle lane is in flight at
    once, whatever the other lanes are doing. The toggle and the rename of
    an entity are enqueued under distinct keys: invoked with nothing in
    flight, the toggle handler enqueues under the toggle key and the save
    handler under the rename key, and the two differ. But the task item
    guards all its operations with one [isUpdating] flag: a rename invoked
    while a toggle of the same item is still in flight is not enqueued;
    the suspended toggle stays as it is, and the save handler resets the
    title cell to the task's title and leaves editing mode, touching no
    other cell. *)
Theorem lanes_are_independent_and_the_item_is_guarded :
  (∀ (tr : list (Event Action (Settled (option Task)))) (k : string),
      view k (run tr) = view k (run (filter (λ ev, keyOf ev = k) tr)))
  ∧ (∀ (q : Queue Action (Settled (option Task))) (k : string) (a : Action),
      lanes q !! k = None →
      inFlight k (enqueue k a q) = [a]
      ∧ on k (started (enqueue k a q)) = on k (started q) ++ [a])
  ∧ (∀ (task : Task) (s : State),
      isUpdating s = false → trim (title s) ≠ "" →
      keysOf (handleToggleCompletion task s s).2 = [toggleKey task]
      ∧ keysOf (handleEditSave task s s).2 = [editKey task]
      ∧ toggleKey task ≠ editKey task)
  ∧ (∀ (ts : list Task) (task : Task) (evs : list App.Event) (p : bool),
      let w := App.run (boot ts task) evs in
      AwaitToggle p ∈ suspended w →
      let w' := App.step w EditSave in
      enqueues (history w') = enqueues (history w)
      ∧ history w' = history w
      ∧ suspended w' = suspended w
      ∧ (∀ t, props w = Some t →
              item w'
              = mkState false (Api.title t) (isCompleted (item w))
                        (showDeleteConfirm (item w)) true)).
Proof.
  split; [intros tr k; apply view_filter|].
  split.
  { intros q k a Hidle. unfold enqueue, process, inFlight. simpl.
    rewrite Hidle. simpl. rewrite lookup_insert_eq. simpl.
    rewrite lookup_insert_eq, on_snoc, decide_True by done. done. }
  split.
  { intros task s Hidle Hfull.
    unfold handleToggleCompletion, handleEditSave. rewrite Hidle.
    apply String.eqb_neq in Hfull. rewrite Hfull.
    split; [done|]. split; [done|]. unfold toggleKey, editKey. discriminate. }
  intros ts task evs p w Hin w'.
  pose proof (guarded_run ts task evs) as [_ Hbusy]. fold w in Hbusy.
  assert (isUpdating (item w) = true) as Hu.
  { apply Hbusy. intros Hnil. rewrite Hnil in Hin. by apply elem_of_nil in Hin. }
  destruct (busy_async handleEditSave w ltac:(auto) Hu) as [He Hs].
  split; [exact He|].
  subst w'. clearbody w. simpl in *. unfold fireAsync in *.
  destruct (props w) as [t|] eqn:Ht.
  - unfold handleEditSave in *. rewrite Hu in *. simpl in *.
    rewrite app_nil_r. split; [done|]. split; [by rewrite app_nil_r|].
    intros t' [= <-]. by rewrite Hu.
  - split; [done|]. split; [done|]. intros t' [=].
Qed.

Lemma lanes_are_independent_witness :
  inFlight "edit-42" (enqueue "edit-42" (UpdateTask 42 (mkPartial (Some "Buy oat milk") None))
                        (submitted (history toggling)))
  = [UpdateTask 42 (mkPartial (Some "Buy oat milk") None)]
  ∧ suspended (App.step toggling EditSave) = suspended toggling
  ∧ item (App.step toggling EditSave) = mkState false "Buy milk" true false true.
Proof.
  destruct lanes_are_independent_and_the_item_is_guarded
    as (_ & Hidle & _ & Hguard).
  split.
  - apply Hidle. reflexivity.
  - destruct (Hguard [bread; milk] milk
                [Toggle; EditStart; Change "Buy oat milk"] false)
      as (_ & _ & Hs & Hitem).
    + apply list_elem_of_here.
    + split; [exact Hs | exact (Hitem milk eq_refl)].
Defined.

(** C7 as stated fails: the toggle of [milk] is in flight, the user has
    typed a new title, the rename key differs from the toggle key and its
    lane is idle; yet invoking the save handler enqueues nothing under the
    rename key: the typed title is dropped and the editor closes. *)
Lemma rename_during_toggle_is_not_enqueued :
  suspended toggling = [AwaitToggle false]
  ∧ props toggling = Some milk
  ∧ trim (title (item toggling)) = "Buy oat milk"
  ∧ toggleKey milk ≠ editKey milk
  ∧ unsettled (editKey milk) (submitted (history toggling)) = []
  ∧ history (App.step toggling EditSave) = history toggling
  ∧ ¬ (∃ a, Enqueue (editKey milk) a ∈ history (App.step toggling EditSave))
  ∧ title (item (App.step toggling EditSave)) = "Buy milk".
Proof.
  repeat split; try reflexivity.
  - discriminate.
  - intros [a Ha]. vm_compute in Ha.
    apply list_elem_of_singleton in Ha. discriminate.
Qed.

End IndependenceSpec.

Module ApiSpec.
Import Js Api Sample.

(** C9, amended. For every HTTP response with [ok] false, [apiRequest]
    throws and never returns a value. When the body parses to an object
    that has a truthy [detail] (not [null], [false], [0] or the empty
    string), it throws an [Error] whose message is the string form
    (ToString) of that detail, the detail itself when it is a string;
    except that for a detail that cannot be converted to a string (an
    object with an own [toString] property, or an array that holds one)
    building the error throws a TypeError instead. Otherwise, also when
    the body does not parse, it throws an [Error] whose message is
    ['API request failed: {status} {statusText}']. *)
Theorem failed_response_throws
    (env : option string) (token : option string)
    (fetch : Request → Settled Response)
    (endpoint : string) (options : RequestInit) (response : Response) :
  fetch (mkRequest (backendUrl env +:+ endpoint) (method options)
                   (body options) (buildHeaders token options))
    = Fulfilled response →
  ok response = false →
  ∃ thrown,
    apiRequest env (Fulfilled token) fetch endpoint options = Rejected thrown
    ∧ (∀ fields detail,
         json response = Fulfilled (JObject fields) →
         assoc "detail" fields = Some detail →
         truthy detail = true →
         (∀ text, detail = JString text → thrown = mkExn "Error" text)
         ∧ (∀ text, toString detail = Some text → thrown = mkExn "Error" text)
         ∧ (toString detail = None → thrown = notConvertible))
    ∧ ((∀ fields detail,
          json response = Fulfilled (JObject fields) →
          assoc "detail" fields = Some detail →
          truthy detail = false) →
       thrown = mkExn "Error"
                  ("API request failed: " +:+ pretty (status response) +:+ " "
                   +:+ statusText response)).
Proof.
  intros Hfetch Hok. unfold apiRequest. rewrite Hfetch, Hok.
  eexists. split; [reflexivity|]. unfold errorOf.
  destruct (json response) as [errorData|e]; [|by split].
  destruct errorData as [|b|n|str|l|fields]; try (by split).
  unfold getProp. destruct (assoc "detail" fields) as [detail|] eqn:Hd.
  - destruct (truthy detail) eqn:Ht.
    + split.
      * intros fields' detail' [= <-] Hd' _.
        assert (detail' = detail) as -> by congruence.
        unfold newError. repeat split.
        -- by intros text ->.
        -- by intros text ->.
        -- by intros ->.
      * intros Hfalsy. specialize (Hfalsy fields detail eq_refl Hd). congruence.
    + split; [|done]. intros fields' detail' [= <-] Hd' Ht'. congruence.
  - split; [|done]. intros fields' detail' [= <-] Hd'. congruence.
Qed.

Lemma failed_response_throws_witness :
  apiRequest None (Fulfilled (Some "jwt")) (λ _, Fulfilled notFound)
             "/api/tasks/42" noOptions
  = Rejected (mkExn "Error" "Task not found")
  ∧ apiRequest None (Fulfilled None) (λ _, Fulfilled badGateway)
               "/api/tasks/42" noOptions
    = Rejected (mkExn "Error" "API request failed: 502 Bad Gateway")
  ∧ apiRequest None (Fulfilled None) (λ _, Fulfilled hostileDetail)
               "/api/tasks/42" noOptions
    = Rejected notConvertible.
Proof.
  split; [|split].
  - destruct (failed_response_throws None (Some "jwt") (λ _, Fulfilled notFound)
                "/api/tasks/42" noOptions notFound eq_refl eq_refl)
      as (thrown & -> & Hdetail & _).
    destruct (Hdetail _ (JString "Task not found") eq_refl eq_refl eq_refl)
      as (Htext & _).
    by rewrite (Htext _ eq_refl).
  - destruct (failed_response_throws None None (λ _, Fulfilled badGateway)
                "/api/tasks/42" noOptions badGateway eq_refl eq_refl)
      as (thrown & -> & _ & Hdefault).
    rewrite Hdefault; [reflexivity|]. intros fields detail Hjson. discriminate.
  - destruct (failed_response_throws None None (λ _, Fulfilled hostileDetail)
                "/api/tasks/42" noOptions hostileDetail eq_refl eq_refl)
      as (thrown & -> & Hdetail & _).
    destruct (Hdetail _ _ eq_refl eq_refl eq_refl) as (_ & _ & Hthrows).
    by rewrite Hthrows.
Defined.

(** C9 as stated fails: the body [{"detail": ""}] parses as JSON and
    contains [detail], but the message of the thrown error is not that
    detail: it is the default message. *)
Lemma empty_detail_gives_default_message :
  ok emptyDetail = false
  ∧ json emptyDetail = Fulfilled (JObject [("detail", JString "")])
  ∧ apiRequest None (Fulfilled None) (λ _, Fulfilled emptyDetail)
               "/api/tasks/42" noOptions
    = Rejected (mkExn "Error" "API request failed: 400 Bad Request")
  ∧ apiRequest None (Fulfilled None) (λ _, Fulfilled emptyDetail)
               "/api/tasks/42" noOptions
    ≠ Rejected (mkExn "Error" "").
Proof. repeat split; try reflexivity. vm_compute. discriminate. Qed.

End ApiSpec.

(* ===================================================================== *)
(** * Further properties of the code *)
(* ===================================================================== *)

(** ** Strings: reversal and trimming *)

Module TrimFacts.
Import Js TaskItemKeys.

Lemma append_cons (c : ascii) (s t : string) :
  String c s +:+ t = String c (s +:+ t).
Proof. reflexivity. Qed.

Lemma append_assoc (s1 s2 s3 : string) : (s1 +:+ s2) +:+ s3 = s1 +:+ s2 +:+ s3.
Proof.
  induction s1 as [|c s1 IH]; [done|]. by rewrite !append_cons, IH.
Qed.

Lemma rev_app_spec (s1 s2 : string) :
  String.rev_app s1 s2 = String.rev s1 +:+ s2.
Proof.
  unfold String.rev. revert s2.
  induction s1 as [|c s1 IH]; intros s2; [done|].
  change (String.rev_app s1 (String c s2)
          = String.rev_app s1 (String c "") +:+ s2).
  rewrite (IH (String c s2)), (IH (String c "")), append_assoc. done.
Qed.

Lemma rev_cons (c : ascii) (s : string) :
  String.rev (String c s) = String.rev s +:+ String c "".
Proof. unfold String.rev at 1. apply (rev_app_spec s (String c "")). Qed.

Lemma rev_snoc (s : string) (c : ascii) :
  String.rev (s +:+ String c "") = String c (String.rev s).
Proof.
  induction s as [|a s IH]; [done|].
  by rewrite append_cons, !rev_cons, IH.
Qed.

Lemma rev_involutive (s : string) : String.rev (String.rev s) = s.
Proof.
  induction s as [|c s IH]; [done|]. by rewrite rev_cons, rev_snoc, IH.
Qed.

Lemma trimStart_clean (s : string) : startsClean (trimStart s).
Proof.
  induction s as [|c s IH]; simpl; [done|].
  destruct (isWhiteSpace c) eqn:Hc; [exact IH | exact Hc].
Qed.

Lemma trimStart_id (s : string) : startsClean s → trimStart s = s.
Proof. destruct s as [|c s]; simpl; [done|]. by intros ->. Qed.

(** Trimming the start of a string that ends in a clean character keeps
    that character at the end. *)
Lemma trimStart_snoc (s : string) (c : ascii) :
  isWhiteSpace c = false →
  ∃ s', trimStart (s +:+ String c "") = s' +:+ String c "".
Proof.
  intros Hc. induction s as [|a s IH].
  - exists "". simpl. by rewrite Hc.
  - rewrite append_cons. simpl.
    destruct (isWhiteSpace a); [exact IH|]. by exists (String a s).
Qed.

Lemma trimEnd_keeps_clean_start (s : string) :
  startsClean s → startsClean (trimEnd s).
Proof.
  destruct s as [|c s]; [done|]. simpl. intros Hc. unfold trimEnd.
  rewrite rev_cons. destruct (trimStart_snoc (String.rev s) c Hc) as [s' ->].
  by rewrite rev_snoc.
Qed.

Lemma trim_trimmed (s : string) : trimmed (trim s).
Proof.
  unfold trim. split.
  - apply trimEnd_keeps_clean_start, trimStart_clean.
  - unfold trimEnd. rewrite rev_involutive. apply trimStart_clean.
Qed.

Lemma trimmed_trim (s : string) : trimmed s → trim s = s.
Proof.
  intros [Hs He]. unfold trim, trimEnd.
  rewrite (trimStart_id s Hs), (trimStart_id _ He). apply rev_involutive.
Qed.

Lemma trim_idempotent (s : string) : trim (trim s) = trim s.
Proof. apply trimmed_trim, trim_trimmed. Qed.

End TrimFacts.

(** ** The api client *)

Module ApiExtra.
Import Js Api TaskApi Sample Sample2.

(** X1. [apiRequest] resolves with a value exactly when the token was
    obtained, [fetch] resolved with a response whose [ok] is true, and the
    body of that response parsed as JSON; the value is the parsed body. *)
Theorem api_request_fulfils_exactly_on_ok_json
    (env : option string) (getToken : Settled (option string))
    (fetch : Request → Settled Response)
    (endpoint : string) (options : RequestInit) (v : Json) :
  apiRequest env getToken fetch endpoint options = Fulfilled v
  ↔ ∃ token response,
      getToken = Fulfilled token
      ∧ fetch (requestFor env token endpoint options) = Fulfilled response
      ∧ ok response = true
      ∧ json response = Fulfilled v.
Proof.
  unfold apiRequest, requestFor. split.
  - destruct getToken as [token|e]; [|done].
    destruct (fetch _) as [response|e] eqn:Hf; [|done].
    destruct (ok response) eqn:Hok; [|done]. simpl. intros Hj.
    exists token, response. by rewrite Hf.
  - intros (token & response & -> & -> & -> & Hj). done.
Qed.

(** X2. Failures before and after the status check reach the caller as
    they are: when [getToken] rejects, [apiRequest] rejects with that
    error whatever [fetch] would do; when [fetch] rejects (network
    failure), with that error; and when an ok response has a body that
    does not parse, with the error of [response.json()]. None of them is
    replaced by an ['API request failed'] error. *)
Theorem api_request_passes_failures_through
    (env : option string) (endpoint : string) (options : RequestInit)
    (e : Exn) :
  (∀ fetch, apiRequest env (Rejected e) fetch endpoint options = Rejected e)
  ∧ (∀ token fetch,
       fetch (requestFor env token endpoint options) = Rejected e →
       apiRequest env (Fulfilled token) fetch endpoint options = Rejected e)
  ∧ (∀ token fetch response,
       fetch (requestFor env token endpoint options) = Fulfilled response →
       ok response = true →
       json response = Rejected e →
       apiRequest env (Fulfilled token) fetch endpoint options = Rejected e).
Proof.
  unfold apiRequest, requestFor. repeat split.
  - by intros token fetch ->.
  - by intros token fetch response -> -> ->.
Qed.

Lemma api_request_passes_failures_through_witness :
  apiRequest None (Fulfilled (Some "jwt")) (λ _, Rejected networkDown)
             "/api/tasks" noOptions = Rejected networkDown.
Proof.
  destruct (api_request_passes_failures_through None "/api/tasks" noOptions
              networkDown) as (_ & Hfetch & _).
  by apply Hfetch.
Defined.

(** The headers [buildHeaders] sends, header by header, for the plain
    object [given] it spreads (empty when the caller's headers are not
    spread). *)
Lemma buildHeaders_lookup (token : option string) (options : RequestInit) :
  let given := default ∅ (headers options) in
  let sent := buildHeaders token options in
  (∀ t, token = Some t → t ≠ "" →
        sent !! "Authorization" = Some ("Bearer " +:+ t))
  ∧ (token = None ∨ token = Some "" →
     sent !! "Authorization" = given !! "Authorization")
  ∧ sent !! "Content-Type"
    = Some (default "application/json" (given !! "Content-Type"))
  ∧ (∀ k, k ≠ "Authorization" → k ≠ "Content-Type" →
          sent !! k = given !! k).
Proof.
  intros given sent. subst sent. unfold buildHeaders. fold given.
  assert (∀ k, (given ∪ {["Content-Type" := "application/json"]}) !! k
               = match given !! k with
                 | Some v => Some v
                 | None => if decide (k = "Content-Type")
                           then Some "application/json" else None
                 end) as Hunion.
  { intros k. rewrite lookup_union.
    destruct (given !! k) as [v|] eqn:Hk; simpl.
    - by destruct ({["Content-Type" := "application/json"]} !! k).
    - rewrite lookup_singleton. by destruct (decide _); case_decide. }
  repeat split.
  - intros t -> Ht. apply String.eqb_neq in Ht. rewrite Ht.
    by rewrite lookup_insert_eq.
  - intros [-> | ->]; simpl; rewrite Hunion;
      by destruct (given !! "Authorization").
  - destruct token as [t|]; [destruct (String.eqb t "")|];
      rewrite ?lookup_insert_ne by done; rewrite Hunion;
      by destruct (given !! "Content-Type").
  - intros k Ha Hc.
    destruct token as [t|]; [destruct (String.eqb t "")|];
      rewrite ?lookup_insert_ne by done; rewrite Hunion;
      destruct (given !! k); try done; by rewrite decide_False.
Qed.

(** X3. The headers of every request. [Authorization] is ['Bearer ' +
    token] when the session has a non-empty token, whatever the caller
    passed. For a caller who passes a plain object, [Authorization]
    without such a token is the caller's own (if any), [Content-Type] is
    the caller's when given and ['application/json'] otherwise, and every
    other header is the caller's. For a caller who passes nothing, a
    [Headers] instance or an array of pairs, none of the caller's headers
    is sent: the request carries ['application/json'] as [Content-Type],
    the token's [Authorization] if there is one, and nothing else. *)
Theorem request_headers
    (token : option string) (method body : option string)
    (given : option HeadersInit) :
  let sent := buildHeaders token (optionsOf method body given) in
  (∀ t, token = Some t → t ≠ "" →
        sent !! "Authorization" = Some ("Bearer " +:+ t))
  ∧ match given with
    | Some (PlainObject h) =>
        (token = None ∨ token = Some "" →
         sent !! "Authorization" = h !! "Authorization")
        ∧ sent !! "Content-Type"
          = Some (default "application/json" (h !! "Content-Type"))
        ∧ (∀ k, k ≠ "Authorization" → k ≠ "Content-Type" →
                sent !! k = h !! k)
    | Some (HeadersInstance _) | Some (PairArray _) | None =>
        (token = None ∨ token = Some "" → sent !! "Authorization" = None)
        ∧ sent !! "Content-Type" = Some "application/json"
        ∧ (∀ k, k ≠ "Authorization" → k ≠ "Content-Type" → sent !! k = None)
    end.
Proof.
  intros sent.
  destruct (buildHeaders_lookup token (optionsOf method body given))
    as (Hauth & Hnone & Hct & Hother).
  split; [exact Hauth|].
  destruct given as [[h|h|l]|]; simpl in *;
    (split; [exact Hnone|]); (split; [exact Hct|]); exact Hother.
Qed.

Lemma request_headers_witness :
  buildHeaders (Some "jwt")
    (optionsOf None None (Some (PlainObject {["Authorization" := "Basic abc"]})))
  !! "Authorization" = Some "Bearer jwt"
  ∧ buildHeaders None
      (optionsOf None None (Some (HeadersInstance {["X-Trace" := "1"]})))
    !! "X-Trace" = None.
Proof.
  split.
  - destruct (request_headers (Some "jwt") None None
                (Some (PlainObject {["Authorization" := "Basic abc"]})))
      as (H & _).
    by apply H.
  - destruct (request_headers None None None
                (Some (HeadersInstance {["X-Trace" := "1"]})))
      as (_ & _ & _ & H).
    by apply H.
Defined.

(** X4. The four task calls report what the server reports: when the
    server answers with a response whose [ok] is false, [getTasks],
    [createTask], [updateTask] and [deleteTask] all reject with the error
    [apiRequest] builds from that response (its detail or the status
    line); none of them resolves. *)
Theorem task_calls_reject_on_error_response
    (env : option string) (token : option string)
    (fetch : Request → Settled Response) (response : Response)
    (title : string) (i : Z) (updates : PartialTask) :
  (∀ request, fetch request = Fulfilled response) →
  ok response = false →
  getTasks env (Fulfilled token) fetch = Rejected (errorOf response)
  ∧ createTask env (Fulfilled token) fetch title = Rejected (errorOf response)
  ∧ updateTask env (Fulfilled token) fetch i updates
    = Rejected (errorOf response)
  ∧ deleteTask env (Fulfilled token) fetch i = Rejected (errorOf response).
Proof.
  intros Hfetch Hok.
  unfold getTasks, createTask, updateTask, deleteTask, apiRequest.
  rewrite !Hfetch, Hok. done.
Qed.

Lemma task_calls_reject_on_error_response_witness :
  deleteTask None (Fulfilled None) (λ _, Fulfilled notFound) 42
  = Rejected (mkExn "Error" "Task not found").
Proof.
  destruct (task_calls_reject_on_error_response None None
              (λ _, Fulfilled notFound) notFound "" 42 (mkPartial None None))
    as (_ & _ & _ & ->); reflexivity.
Defined.

(** X5. [deleteTask] resolves (with no value) as soon as the server
    answers ok with a body that parses, whatever the body says; but an ok
    answer whose body is not JSON, such as an empty 204 answer, makes
    [deleteTask] reject with the parse error although the server accepted
    the delete. *)
Theorem delete_needs_a_json_body
    (env : option string) (token : option string)
    (fetch : Request → Settled Response) (response : Response) (i : Z) :
  fetch (requestFor env token ("/api/tasks/" +:+ pretty i)
           (mkInit (Some "DELETE") None None)) = Fulfilled response →
  ok response = true →
  deleteTask env (Fulfilled token) fetch i
  = match json response with
    | Fulfilled _ => Fulfilled tt
    | Rejected e => Rejected e
    end.
Proof.
  intros Hfetch Hok. unfold deleteTask, apiRequest, requestFor in *.
  by rewrite Hfetch, Hok.
Qed.

Lemma delete_needs_a_json_body_witness :
  deleteTask None (Fulfilled None) (λ _, Fulfilled noContent) 42
  = Rejected (mkExn "SyntaxError" "Unexpected end of JSON input")
  ∧ deleteTask None (Fulfilled None) (λ _, Fulfilled deletedOk) 42
    = Fulfilled tt.
Proof.
  split.
  - by rewrite (delete_needs_a_json_body None None
                  (λ _, Fulfilled noContent) noContent 42 eq_refl eq_refl).
  - by rewrite (delete_needs_a_json_body None None
                  (λ _, Fulfilled deletedOk) deletedOk 42 eq_refl eq_refl).
Defined.

End ApiExtra.

(** ** The task item *)

Module ItemExtra.
Import Js Api TaskApi TaskItem TaskItemKeys App ItemFacts AppFacts TrimFacts.
Import Sample Sample2.

(** X6. A toggle or a delete that fails is undone completely: on an idle
    item (no operation in flight), invoking the handler and then seeing the
    remote call fail leaves every state cell of the item as it was before
    the click, so in particular the delete dialog stays open for a retry,
    leaves the page's list as it was, and leaves nothing suspended. *)
Theorem failed_toggle_or_delete_is_undone
    (w : World) (task : Task) (error : Exn) (ev : Event) :
  props w = Some task →
  isUpdating (item w) = false →
  suspended w = [] →
  ev = Toggle ∨ ev = Delete →
  let w' := step (step w ev) (Settle 0 (Rejected error)) in
  item w' = item w ∧ tasks w' = tasks w ∧ suspended w' = [].
Proof.
  intros Hprops Hidle Hnone Hev.
  destruct w as [k ts [e t c d u] sus hist]. simpl in *. subst u sus.
  destruct Hev as [-> | ->]; simpl; unfold fireAsync; rewrite Hprops;
    simpl; done.
Qed.

Lemma failed_toggle_or_delete_is_undone_witness :
  item (step (step page Toggle) (Settle 0 (Rejected networkDown))) = item page.
Proof.
  by destruct (failed_toggle_or_delete_is_undone page milk networkDown Toggle
                 eq_refl eq_refl eq_refl (or_introl eq_refl)) as [-> _].
Defined.

(** How a settlement leaves the item: either it releases the busy flag, or
    it is the confirmation of a delete and tells the page so. *)
Lemma resume_outcome i o w :
  resume i o w = w ∨
  ∃ k s' es,
    suspended w !! i = Some k
    ∧ resume i o w = commit w s' es (delete i (suspended w))
    ∧ (isUpdating s' = false
       ∨ ∃ t, k = AwaitDelete t ∧ es = [OnTaskDeleted (id t)]
              ∧ isUpdating s' = isUpdating (item w)).
Proof.
  unfold resume. destruct (suspended w !! i) as [k|] eqn:Hk; [|by left].
  destruct k as [p|t|t], o as [[u|]|e]; try (by left); right;
    do 3 eexists; (split; [reflexivity|]); (split; [reflexivity|]);
    simpl; eauto.
Qed.

(** X7. The busy flag does not get stuck: in every run from a freshly
    rendered page, whenever [isUpdating] is set, either an operation of the
    item is still in flight or the item's task has been deleted (the page
    was told so). *)
Theorem busy_flag_is_released
    (ts : list Task) (task : Task) (evs : list Event) :
  let w := run (boot ts task) evs in
  isUpdating (item w) = true →
  suspended w ≠ [] ∨ ∃ j, OnTaskDeleted j ∈ history w.
Proof.
  apply (run_invariant
    (λ w, isUpdating (item w) = true →
          suspended w ≠ [] ∨ ∃ j, OnTaskDeleted j ∈ history w)).
  { simpl. done. }
  clear evs. intros w ev IH.
  assert (∀ s', isUpdating s' = isUpdating (item w) →
            isUpdating (item (commit w s' [] (suspended w))) = true →
            suspended (commit w s' [] (suspended w)) ≠ []
            ∨ ∃ j, OnTaskDeleted j ∈ history (commit w s' [] (suspended w)))
    as Hsame.
  { intros s' Hs'. simpl. rewrite app_nil_r, Hs'. exact IH. }
  destruct ev as [| | |value| | | | |i o].
  1, 5, 8:
    match goal with
    | |- context [step ?w0 ?e] =>
        destruct (async_event e ltac:(auto)) as (h & Hh & ->);
        destruct (fireAsync_spec h w0 Hh)
          as [-> | (t & k & s' & es & _ & _ & -> & Hk)]; [exact IH|];
        destruct k as [k|];
        [ intros _; left; simpl; by destruct (suspended w0)
        | destruct Hk as [-> Hs']; rewrite app_nil_r; by apply Hsame ]
    end.
  6: { simpl. destruct (resume_outcome i o w)
         as [-> | (k & s' & es & Hk & -> & Hout)]; [exact IH|].
       destruct Hout as [Hfalse | (t & -> & -> & _)].
       - simpl. congruence.
       - intros _. right. exists (id t). simpl.
         apply elem_of_app. right. apply list_elem_of_here. }
  all: match goal with
       | |- context [step ?w0 ?e] =>
           destruct (fire_spec w0 e) as [-> | (s' & -> & Hs')];
           [exact IH | by apply Hsame]
       end.
Qed.

Lemma busy_flag_is_released_witness :
  suspended renaming ≠ [] ∨ ∃ j, OnTaskDeleted j ∈ history renaming.
Proof.
  exact (busy_flag_is_released [bread; milk] milk
           [EditStart; Change "Buy oat milk"; EditSave] eq_refl).
Defined.

(** An item that is busy with nothing in flight stays so. *)
Lemma inert_step w ev :
  isUpdating (item w) = true → suspended w = [] →
  isUpdating (item (step w ev)) = true ∧ suspended (step w ev) = [].
Proof.
  intros Hu Hnone.
  destruct ev as [| | |value| | | | |i o].
  1, 5, 8:
    match goal with
    | |- context [step ?w0 ?e] =>
        destruct (async_event e ltac:(auto)) as (h & Hh & ->);
        destruct (fireAsync_spec h w0 Hh)
          as [-> | (t & k & s' & es & _ & _ & -> & Hk)]; [done|];
        destruct k as [k|];
        [ destruct Hk as [Hidle _]; congruence
        | destruct Hk as [_ Hs']; simpl; by rewrite Hs', Hnone ]
    end.
  6: { simpl. unfold resume. by rewrite Hnone. }
  all: match goal with
       | |- context [step ?w0 ?e] =>
           destruct (fire_spec w0 e) as [-> | (s' & -> & Hs')];
           [done | simpl; by rewrite Hs']
       end.
Qed.

(** X8. Once its delete has been confirmed the item does nothing more:
    the success path of [handleDelete] never resets [isUpdating], so after
    the confirmation the page no longer lists the task, and whatever
    happens afterwards the item stays busy with nothing in flight and hands
    nothing further to the queue. *)
Theorem confirmed_delete_leaves_item_inert
    (ts : list Task) (task : Task) (before after : list Event)
    (i : nat) (t : Task) :
  let w := run (boot ts task) before in
  suspended w !! i = Some (AwaitDelete t) →
  let w' := step w (Settle i (Fulfilled None)) in
  (∀ x, x ∈ tasks w' → id x ≠ id t)
  ∧ isUpdating (item (run w' after)) = true
  ∧ suspended (run w' after) = []
  ∧ enqueues (history (run w' after)) = enqueues (history w').
Proof.
  intros w Hi w'.
  destruct (guarded_run ts task before) as [Hlen Hbusy]. fold w in Hlen, Hbusy.
  clearbody w.
  assert (suspended w = [AwaitDelete t] ∧ i = 0%nat) as [Hsus ->].
  { destruct (suspended w) as [|k [|k' l]]; simpl in *; [done| |lia].
    destruct i; simpl in Hi; [by simplify_eq|done]. }
  assert (isUpdating (item w) = true) as Hu by (apply Hbusy; by rewrite Hsus).
  assert (isUpdating (item w') = true ∧ suspended w' = []) as [Hu' Hs'].
  { subst w'. simpl. unfold resume. rewrite Hsus. simpl. done. }
  split.
  { subst w'. simpl. unfold resume. rewrite Hsus. simpl.
    intros x Hx. by apply handleTaskDeleted_gone in Hx as [_ ?]. }
  apply (run_invariant
    (λ x, isUpdating (item x) = true ∧ suspended x = []
          ∧ enqueues (history x) = enqueues (history w'))); [done|].
  intros x ev (Hxu & Hxs & Hxe).
  destruct (inert_step x ev Hxu Hxs) as [? ?].
  by rewrite busy_step_enqueues.
Qed.

Lemma confirmed_delete_leaves_item_inert_witness :
  tasks deleted = [bread]
  ∧ enqueues (history (run deleted [Toggle; EditStart; EditSave; Delete]))
    = enqueues (history deleted).
Proof.
  split; [reflexivity|].
  destruct (confirmed_delete_leaves_item_inert [bread; milk] milk
              [DeleteClick; Delete] [Toggle; EditStart; EditSave; Delete]
              0 milk eq_refl) as (_ & _ & _ & H).
  exact H.
Defined.

Lemma props_id w t : props w = Some t → id t = key w.
Proof.
  unfold props. intros Hh. apply head_Some_elem_of in Hh.
  by apply list_elem_of_filter in Hh as [? _].
Qed.

Lemma keys_by_id t1 t2 :
  id t1 = id t2 →
  toggleKey t1 = toggleKey t2 ∧ editKey t1 = editKey t2
  ∧ deleteKey t1 = deleteKey t2.
Proof. unfold toggleKey, editKey, deleteKey. by intros ->. Qed.

(** X9. The item only ever acts on its own task: in every run from a
    freshly rendered page, every action the item has handed to the queue
    targets the id of its task under the toggle, rename or delete key of
    that id (a toggle carries only the completion flag, a rename only the
    title), and every deletion it has reported to the page is the deletion
    of that id. *)
Theorem item_addresses_only_its_task
    (ts : list Task) (task : Task) (evs : list Event) (e : Effect) :
  e ∈ history (run (boot ts task) evs) → addresses task e.
Proof.
  revert e. apply Forall_forall.
  cut (key (run (boot ts task) evs) = id task
       ∧ Forall (addresses task) (history (run (boot ts task) evs))
       ∧ Forall (owned task) (suspended (run (boot ts task) evs))).
  { by intros (_ & ? & _). }
  apply (run_invariant
    (λ w, key w = id task ∧ Forall (addresses task) (history w)
          ∧ Forall (owned task) (suspended w))).
  { simpl. repeat split; constructor. }
  clear evs. intros w ev (Hkey & Hhist & Hsus).
  assert (∀ s', key (commit w s' [] (suspended w)) = id task
                ∧ Forall (addresses task) (history (commit w s' [] (suspended w)))
                ∧ Forall (owned task) (suspended (commit w s' [] (suspended w))))
    as Hsame.
  { intros s'. simpl. by rewrite app_nil_r. }
  destruct ev as [| | |value| | | | |i o].
  1, 5, 8: simpl; unfold fireAsync;
    (destruct (props w) as [t|] eqn:Hprops; [|done]);
    apply props_id in Hprops; rewrite Hkey in Hprops;
    destruct (keys_by_id t task Hprops) as (Htk & Hek & Hdk);
    cbv [handleToggleCompletion handleEditSave handleDelete
         setIsEditing setTitle setIsCompleted setShowDeleteConfirm
         setIsUpdating perform mbind mret Handler_bind Handler_ret];
    destruct (isUpdating (item w)); cbn;
    try destruct (String.eqb (trim (title (item w))) ""); cbn;
    rewrite ?app_nil_r; (split; [done|]);
    rewrite ?Forall_app, ?Forall_singleton; repeat split; try done;
    cbn; rewrite ?Htk, ?Hek, ?Hdk, ?app_nil_r; try done;
    try (by repeat constructor); eauto 10.
  6: { simpl. unfold resume.
       destruct (suspended w !! i) as [k|] eqn:Hk; [|done].
       pose proof (Forall_lookup_1 _ _ _ _ Hsus Hk) as Howned.
       pose proof (Forall_delete (owned task) _ i Hsus) as Hrest.
       destruct k as [p|t|t], o as [[u|]|err]; try done;
         cbv [resumeToggleCompletion resumeEditSave resumeDelete
              setIsEditing setTitle setIsCompleted setShowDeleteConfirm
              setIsUpdating perform mbind mret Handler_bind Handler_ret];
         cbn; (split; [done|]); (split; [|done]);
         rewrite Forall_app; (split; [done|]);
         by repeat constructor. }
  all: match goal with
       | |- context [step ?w0 ?e] =>
           destruct (fire_spec w0 e) as [-> | (s' & -> & _)];
           [done | apply Hsame]
       end.
Qed.

Lemma item_addresses_only_its_task_witness :
  addresses milk (Enqueue "toggle-42" (UpdateTask 42 (mkPartial None (Some true)))).
Proof.
  apply (item_addresses_only_its_task [bread; milk] milk
           [Toggle; EditStart; Change "Buy oat milk"]).
  apply list_elem_of_here.
Defined.

(** X10. The keyboard handler of the title input: only Enter can hand
    anything to the queue; Escape closes the editor and puts the task's
    title back; any other key changes nothing. What Enter hands over is
    at most one rename of the item's task under its rename key, and the
    title it carries is the trimmed input, which is never empty and has no
    white space at either end. *)
Theorem keyboard_handler (task : Task) (s : State) (key : string) :
  match handleKeyDown task s key s with
  | (k, s', es) =>
      (key ≠ "Enter" → k = None ∧ es = [])
      ∧ (key = "Escape" → isEditing s' = false ∧ title s' = Api.title task)
      ∧ (key ≠ "Enter" → key ≠ "Escape" → s' = s)
      ∧ (es = [] ∨
         ∃ t, es = [Enqueue (editKey task)
                      (UpdateTask (id task) (mkPartial (Some t) None))]
              ∧ key = "Enter"
              ∧ t = trim (title s) ∧ t ≠ "" ∧ trimmed t)
  end.
Proof.
  unfold handleKeyDown.
  destruct (String.eqb_spec key "Enter") as [->|Hne].
  - unfold handleEditSave.
    destruct (isUpdating s); cbn.
    { repeat split; try done. by left. }
    destruct (String.eqb_spec (trim (title s)) "") as [Hblank|Hfull]; cbn.
    { repeat split; try done. by left. }
    repeat split; try done. right. eexists. repeat split; try done.
    all: apply trim_trimmed.
  - destruct (String.eqb_spec key "Escape") as [->|Hne']; cbn.
    + repeat split; try done. by left.
    + repeat split; try done. by left.
Qed.

Lemma keyboard_handler_witness :
  (handleKeyDown milk drafting "Enter" drafting).2
  = [Enqueue "edit-42" (UpdateTask 42 (mkPartial (Some "Buy oat milk") None))]
  ∧ (handleKeyDown milk drafting "a" drafting).1.2 = drafting.
Proof.
  split; [reflexivity|].
  pose proof (keyboard_handler milk drafting "a") as H.
  destruct (handleKeyDown milk drafting "a" drafting) as [[k s'] es].
  destruct H as (_ & _ & H & _). by apply H.
Defined.

(** X11. A delete that the server accepts without a JSON body does not
    show: when the promise awaited by [handleDelete] settles the way
    [deleteTask] does on an ok response whose body does not parse, the
    handler takes its failure path; the page still lists the task, the
    parse error is logged and the item is idle again. *)
Theorem delete_without_json_body_keeps_task
    (w : World) (i : nat) (task : Task)
    (env : option string) (token : option string)
    (fetch : Request → Settled Response) (response : Response) (e : Exn) :
  suspended w !! i = Some (AwaitDelete task) →
  fetch (requestFor env token ("/api/tasks/" +:+ pretty (id task))
           (mkInit (Some "DELETE") None None)) = Fulfilled response →
  ok response = true →
  json response = Rejected e →
  let w' := step w (Settle i (deleteSettlement
                                (deleteTask env (Fulfilled token) fetch (id task)))) in
  tasks w' = tasks w
  ∧ history w' = history w ++ [ConsoleError "Failed to delete task:" e]
  ∧ isUpdating (item w') = false
  ∧ showDeleteConfirm (item w') = showDeleteConfirm (item w).
Proof.
  intros Hi Hfetch Hok Hjson.
  unfold deleteTask, apiRequest, requestFor in *.
  rewrite Hfetch, Hok, Hjson.
  simpl. unfold resume. rewrite Hi. done.
Qed.

Lemma delete_without_json_body_keeps_task_witness :
  tasks (step deleting
           (Settle 0 (deleteSettlement
                        (deleteTask None (Fulfilled None)
                           (λ _, Fulfilled noContent) 42))))
  = [bread; milk].
Proof.
  destruct (delete_without_json_body_keeps_task deleting 0 milk None None
              (λ _, Fulfilled noContent) noContent _
              eq_refl eq_refl eq_refl eq_refl) as [H _].
  exact H.
Defined.

End ItemExtra.

(** ** The page: its list callbacks, the create form and the filter panel *)

Module PageExtra.
Import Js Api TaskItemKeys TrimFacts Sample.

(** X12. [handleTaskUpdated] replaces in place: the list keeps its length
    and the ids keep their positions; every entry with the id of the
    updated task becomes the updated task and every other entry stays;
    an update for an id the list does not hold changes nothing; applying
    the same update twice is applying it once. *)
Theorem task_update_replaces_in_place (u : Task) (ts : list Task) :
  let ts' := Page.handleTaskUpdated u ts in
  length ts' = length ts
  ∧ id <$> ts' = id <$> ts
  ∧ (∀ j t, ts !! j = Some t →
            ts' !! j = Some (if decide (id t = id u) then u else t))
  ∧ ((∀ t, t ∈ ts → id t ≠ id u) → ts' = ts)
  ∧ Page.handleTaskUpdated u ts' = ts'.
Proof.
  unfold Page.handleTaskUpdated. cbn zeta.
  split; [by rewrite length_fmap|].
  split.
  { rewrite <- list_fmap_compose. apply list_fmap_ext.
    intros _ t _. simpl. by case_decide. }
  split; [intros j t Hj; by rewrite list_lookup_fmap, Hj|].
  split.
  - intros Habsent. rewrite <- (list_fmap_id ts) at 2.
    apply list_fmap_ext. intros j t Hj. simpl.
    rewrite decide_False; [done|]. apply Habsent.
    by apply list_elem_of_lookup_2 in Hj.
  - rewrite <- list_fmap_compose. apply list_fmap_ext.
    intros _ t _. simpl. repeat case_decide; done.
Qed.

Lemma task_update_replaces_in_place_witness :
  Page.handleTaskUpdated milkDone [bread; milk] = [bread; milkDone]
  ∧ Page.handleTaskUpdated milkDone [bread] = [bread].
Proof.
  split; [reflexivity|].
  destruct (task_update_replaces_in_place milkDone [bread])
    as (_ & _ & _ & Habsent & _).
  apply Habsent. intros t Ht. apply list_elem_of_singleton in Ht as ->. done.
Defined.

(** X13. [handleTaskDeleted] removes every entry with the given id and
    nothing else, keeping the order of the rest; deleting an id the list
    does not hold changes nothing; deleting twice is deleting once; and
    two deletions give the same list in either order. *)
Theorem task_delete_removes_every_entry (i j : Z) (ts : list Task) :
  let ts' := Page.handleTaskDeleted i ts in
  (∀ t, t ∈ ts' ↔ t ∈ ts ∧ id t ≠ i)
  ∧ ts' `sublist_of` ts
  ∧ ((∀ t, t ∈ ts → id t ≠ i) → ts' = ts)
  ∧ Page.handleTaskDeleted i ts' = ts'
  ∧ Page.handleTaskDeleted i (Page.handleTaskDeleted j ts)
    = Page.handleTaskDeleted j ts'.
Proof.
  unfold Page.handleTaskDeleted. cbn zeta.
  split; [intros t; rewrite list_elem_of_filter; tauto|].
  split; [apply sublist_filter|].
  split.
  { induction ts as [|t ts IH]; intros Habsent; [done|].
    rewrite filter_cons_True by (apply Habsent; left).
    f_equal. apply IH. intros x Hx. apply Habsent. by right. }
  split.
  - rewrite list_filter_filter. apply list_filter_iff. tauto.
  - rewrite !list_filter_filter. apply list_filter_iff. tauto.
Qed.

Lemma task_delete_removes_every_entry_witness :
  Page.handleTaskDeleted 42 [bread; milk] = [bread]
  ∧ Page.handleTaskDeleted 5 [bread; milk] = [bread; milk].
Proof.
  split; [reflexivity|].
  destruct (task_delete_removes_every_entry 5 5 [bread; milk])
    as (_ & _ & Habsent & _).
  apply Habsent. intros t Ht.
  apply elem_of_cons in Ht as [-> | Ht]; [done|].
  apply list_elem_of_singleton in Ht as ->. done.
Defined.

(** X14. A deleted task is not brought back by a late update: updating a
    task after its id has been removed from the list leaves the list as
    the deletion left it, and deleting after the update gives the same
    list; an update and the deletion of a different id can be applied in
    either order. *)
Theorem late_update_does_not_resurrect (u : Task) (i : Z) (ts : list Task) :
  Page.handleTaskUpdated u (Page.handleTaskDeleted (id u) ts)
  = Page.handleTaskDeleted (id u) ts
  ∧ Page.handleTaskDeleted (id u) (Page.handleTaskUpdated u ts)
    = Page.handleTaskDeleted (id u) ts
  ∧ (id u ≠ i →
     Page.handleTaskUpdated u (Page.handleTaskDeleted i ts)
     = Page.handleTaskDeleted i (Page.handleTaskUpdated u ts)).
Proof.
  unfold Page.handleTaskUpdated, Page.handleTaskDeleted.
  repeat split.
  - induction ts as [|t ts IH]; [done|].
    rewrite filter_cons. case_decide; [|done].
    rewrite fmap_cons, IH. by rewrite decide_False.
  - induction ts as [|t ts IH]; [done|].
    rewrite fmap_cons, !filter_cons, IH.
    destruct (decide (id t = id u)) as [Heq|Hne].
    + by rewrite !decide_False by (intros H; apply H; done).
    + by rewrite !decide_True.
  - intros Hne. induction ts as [|t ts IH]; [done|].
    rewrite fmap_cons, !filter_cons, <- IH.
    destruct (decide (id t = id u)) as [Heq|Hne'].
    + rewrite !decide_True by congruence. rewrite fmap_cons.
      by rewrite decide_True.
    + destruct (decide (id t ≠ i)); [|done]. rewrite fmap_cons.
      by rewrite decide_False.
Qed.

Lemma late_update_does_not_resurrect_witness :
  Page.handleTaskUpdated milkDone (Page.handleTaskDeleted 7 [bread; milk])
  = [milkDone].
Proof.
  destruct (late_update_does_not_resurrect milkDone 7 [bread; milk])
    as (_ & _ & H).
  rewrite H; [reflexivity | done].
Defined.

(** X15. The create form: with a title that is empty or only white space
    [handleCreateTask] asks for nothing; otherwise it asks [execute] for
    exactly one creation, whose title is the trimmed input, never empty
    and without white space at either end. After the call, the new task
    is appended at the end of the list as it is at that moment and the
    input is cleared, provided [execute] gave a task and the closure sees
    no error; in every other case list and input stay as they are. *)
Theorem create_form (render now : Home.State)
    (newTask : option Task) (error : option Exn) :
  match Home.handleCreateTask render with
  | (false, es) =>
      trim (Home.newTaskTitle render) = "" ∧ es = [Home.PreventDefault]
  | (true, es) =>
      ∃ t, es = [Home.PreventDefault; Home.ExecuteCreate t]
           ∧ t = trim (Home.newTaskTitle render) ∧ t ≠ "" ∧ trimmed t
  end
  ∧ match newTask, error with
    | Some t, None =>
        Home.resumeCreateTask newTask error now
        = Home.mkState "" (Home.tasks now ++ [t])
    | _, _ => Home.resumeCreateTask newTask error now = now
    end.
Proof.
  split.
  - unfold Home.handleCreateTask.
    destruct (String.eqb_spec (trim (Home.newTaskTitle render)) "")
      as [Hblank|Hfull]; [done|].
    eexists. repeat split; try done. all: apply trim_trimmed.
  - by destruct newTask, error.
Qed.

Lemma create_form_witness :
  Home.handleCreateTask (Home.mkState "  Buy eggs " [bread])
  = (true, [Home.PreventDefault; Home.ExecuteCreate "Buy eggs"])
  ∧ Home.tasks (Home.resumeCreateTask (Some milk) None
                  (Home.mkState "  Buy eggs " []))
    = [milk].
Proof.
  pose proof (create_form (Home.mkState "  Buy eggs " [bread])
                (Home.mkState "  Buy eggs " []) (Some milk) None) as [_ H].
  split; [reflexivity|]. by rewrite H.
Defined.

(** X16. The filter panel: [hasActiveFilters] is false exactly when all
    three filters are ['all']; after [handleReset] they are, whatever they
    were before, so the panel shows no active filter. *)
Theorem filter_reset (f : FilterPanel.Filters) :
  let reset := foldl FilterPanel.call f FilterPanel.handleReset in
  reset = FilterPanel.mkFilters "all" "all" "all"
  ∧ FilterPanel.hasActiveFilters reset = false
  ∧ (FilterPanel.hasActiveFilters f = false
     ↔ f = FilterPanel.mkFilters "all" "all" "all").
Proof.
  cbn zeta. split; [reflexivity|]. split; [reflexivity|].
  destruct f as [s p d]. unfold FilterPanel.hasActiveFilters. simpl.
  destruct (String.eqb_spec s "all") as [->|Hs];
    destruct (String.eqb_spec p "all") as [->|Hp];
    destruct (String.eqb_spec d "all") as [->|Hd]; simpl;
    split; try done; intros [=]; done.
Qed.

End PageExtra.

(** ** The login page *)

Module LoginExtra.
Import Js Login.

#[local] Ltac run_submit :=
  cbv [submit handleSubmit resumeSubmit setError setLoading perform
       mbind mret Handler_bind Handler_ret];
  cbn.


Lemma beforeAt_has_no_at (s : string) : hasAt (beforeAt s) = false.
Proof.
  induction s as [|c s IH]; [done|]. simpl.
  destruct (Ascii.eqb c "@") eqn:Hc; [done|]. simpl. by rewrite Hc.
Qed.

Lemma beforeAt_without_at (s : string) : hasAt s = false → beforeAt s = s.
Proof.
  induction s as [|c s IH]; [done|]. simpl.
  destruct (Ascii.eqb c "@"); [done|]. simpl. intros H. by rewrite IH.
Qed.

(** X17. Sign-up is validated before anything is sent: when the two
    passwords differ, or the password has fewer than 8 characters, a
    submission in sign-up mode makes no call to [signUp] (or [signIn]), does
    not navigate, ends with [loading] false and shows ['Passwords do not
    match'] if they differ and otherwise ['Password must be at least 8
    characters']. *)
Theorem signup_is_validated_first (s : State) (auth : Settlement) :
  isLogin s = false →
  password s ≠ confirmPassword s ∨ (String.length (password s) < 8)%nat →
  submit auth s
  = (mkState false (email s) (password s) (name s) (confirmPassword s)
       (if decide (password s = confirmPassword s)
        then "Password must be at least 8 characters"
        else "Passwords do not match")
       false,
     [PreventDefault]).
Proof.
  intros Hmode Hbad. destruct s as [m e p n c err l]. simpl in *. subst m.
  run_submit.
  destruct (String.eqb_spec p c) as [->|Hne]; simpl.
  - destruct Hbad as [?|Hshort]; [done|].
    assert ((String.length c <=? 7)%nat = true) as ->
      by (apply Nat.leb_le; lia).
    simpl. by rewrite decide_True.
  - by rewrite decide_False.
Qed.

Lemma signup_is_validated_first_witness :
  (submit (Resolved true)
     (mkState false "ann@example.org" "secret" "Ann" "secret" "" false)).2
  = [PreventDefault].
Proof.
  rewrite (signup_is_validated_first
             (mkState false "ann@example.org" "secret" "Ann" "secret" "" false)
             (Resolved true) eq_refl); [reflexivity|].
  right. simpl. lia.
Defined.



(** X19. What reaches the authentication client: [signIn] is called only
    in login mode and [signUp] only in sign-up mode, with the email and the
    password of the form; a password handed to [signUp] equals its
    confirmation and has at least 8 characters; the name handed to
    [signUp] is the name field, or, when that is empty, the part of the
    email before its first ['@'] (all of it when there is none), which
    contains no ['@']. *)
Theorem authentication_calls (s : State) (auth : Settlement) (call : Effect) :
  call ∈ (submit auth s).2 →
  match call with
  | SignIn e p => isLogin s = true ∧ e = email s ∧ p = password s
  | SignUp e p n =>
      isLogin s = false ∧ e = email s ∧ p = password s
      ∧ p = confirmPassword s ∧ (8 ≤ String.length p)%nat
      ∧ (name s ≠ "" → n = name s)
      ∧ (name s = "" → n = beforeAt (email s) ∧ hasAt n = false
                       ∧ (hasAt (email s) = false → n = email s))
  | _ => True
  end.
Proof.
  destruct s as [m e p n c err l]. run_submit.
  destruct m; simpl.
  - destruct auth as [[|]|[|x]]; simpl;
      try destruct (String.eqb (exn_message x) ""); simpl;
      intros Hin; repeat (apply elem_of_cons in Hin as [-> | Hin]; [done|]);
      by apply elem_of_nil in Hin.
  - destruct (String.eqb_spec p c) as [->|Hne]; simpl.
    2: { intros Hin. apply list_elem_of_singleton in Hin as ->. done. }
    destruct (String.length c <=? 7)%nat eqn:Hlen; simpl.
    { intros Hin. apply list_elem_of_singleton in Hin as ->. done. }
    apply Nat.leb_gt in Hlen.
    assert (∀ nm, nm = (if String.eqb n "" then beforeAt e else n) →
              (n ≠ "" → nm = n)
              ∧ (n = "" → nm = beforeAt e ∧ hasAt nm = false
                          ∧ (hasAt e = false → nm = e))) as Hname.
    { intros nm ->. destruct (String.eqb_spec n "") as [->|Hn].
      - split; [done|]. intros _. split; [done|].
        split; [apply beforeAt_has_no_at | apply beforeAt_without_at].
      - split; [done|]. intros Hn'. done. }
    destruct auth as [[|]|[|x]]; simpl;
      try destruct (String.eqb (exn_message x) ""); simpl;
      intros Hin;
      (apply elem_of_cons in Hin as [-> | Hin]; [done|]);
      (apply elem_of_cons in Hin as [-> | Hin];
         [repeat split; try done; by apply Hname|]);
      repeat (apply elem_of_cons in Hin as [-> | Hin]; [done|]);
      by apply elem_of_nil in Hin.
Qed.

Lemma authentication_calls_witness :
  let s := mkState false "ann@example.org" "correct horse" "" "correct horse"
                   "" false in
  SignUp "ann@example.org" "correct horse" "ann" ∈ (submit (Resolved true) s).2
  ∧ hasAt "ann" = false.
Proof.
  intros s.
  assert (SignUp "ann@example.org" "correct horse" "ann"
          ∈ (submit (Resolved true) s).2) as Hin.
  { apply list_elem_of_further, list_elem_of_here. }
  split; [exact Hin|].
  destruct (authentication_calls s (Resolved true) _ Hin)
    as (_ & _ & _ & _ & _ & _ & Hname).
  by destruct (Hname eq_refl) as (_ & ? & _).
Defined.

End LoginExtra.
